(** * lightbulb.internal.di: dependency-injection shim

    A shallow embedding of [src/lightbulb/internal/di.py]: the signature
    analyzer [find_injectable_kwargs], the wrapper class [LazyInjecting]
    ([__init__], [__get__], [__call__]) and the load-time replacement
    [FakeLazyInjecting].

    Python objects live in a store, so that object identity ("the very same
    wrapper", "a new wrapper") has a meaning.  The resolver and the wrapped
    callables are external collaborators: they are given by an interface
    ([Host]) whose operations act on an external state. *)

From Stdlib Require Import List String Ascii ZArith Lia Bool Arith.
Import ListNotations.
Local Open Scope string_scope.
Local Open Scope Z_scope.

Set Implicit Arguments.

(** ** Insertion-ordered dictionaries with [str] keys

    A Python [dict] keeps its keys in insertion order; assigning to a key
    that is already present replaces the value and keeps the key's place. *)
Module PyDict.

Definition Dict (V : Type) : Type := list (string * V).

Definition dict_empty {V : Type} : Dict V := [].

Fixpoint dict_get {V : Type} (d : Dict V) (k : string) : option V :=
  match d with
  | [] => None
  | (k', v) :: d' => if String.eqb k' k then Some v else dict_get d' k
  end.

(** [d[k] = v] *)
Fixpoint dict_set {V : Type} (d : Dict V) (k : string) (v : V) : Dict V :=
  match d with
  | [] => [(k, v)]
  | (k', v') :: d' =>
      if String.eqb k' k then (k', v) :: d' else (k', v') :: dict_set d' k v
  end.

Definition dict_keys {V : Type} (d : Dict V) : list string := map fst d.

Definition dict_items {V : Type} (d : Dict V) : list (string * V) := d.

(** [d.update(other)] *)
Definition dict_update {V : Type} (d other : Dict V) : Dict V :=
  fold_left (fun acc kv => dict_set acc (fst kv) (snd kv)) other d.

(** [k in c] for a collection of strings *)
Definition contains (c : list string) (k : string) : bool :=
  existsb (String.eqb k) c.

End PyDict.
Export PyDict.

(** ** Python slicing [l[start:]] for an [int] start *)
Definition slice_from {A : Type} (l : list A) (start : Z) : list A :=
  if start <? 0
  then skipn (Z.to_nat (Z.max 0 (Z.of_nat (List.length l) + start))) l
  else skipn (Z.to_nat start) l.

(** ** [str.lower] on ASCII letters; other bytes are left as they are

    The result is only ever compared with the ASCII string [true], and no
    character outside ASCII lowers to one of its four letters. *)
Definition lower_ascii (c : ascii) : ascii :=
  let n := nat_of_ascii c in
  if (Nat.leb 65 n && Nat.leb n 90)%bool then ascii_of_nat (n + 32) else c.

Fixpoint lower (s : string) : string :=
  match s with
  | EmptyString => EmptyString
  | String c s' => String (lower_ascii c) (lower s')
  end.

(** ** The external collaborators

    [Obj] are the Python objects other than [None]; a value of type
    [t.Any] is [option Obj], with [None] for Python's [None].  [Ann] are
    the objects a parameter annotation evaluates to.  [inspect_signature]
    is [inspect.signature(func, eval_str=True).parameters.values()], which
    raises when the signature cannot be produced or an annotation cannot be
    evaluated; it is the outcome of one inspection (what inspecting again
    gives is the matter of [find_injectable_kwargs_in]).  [aget] is the
    resolver's asynchronous lookup, awaited; [apply] is the call of a
    wrapped callable, awaited.  Both may raise and both act on the external
    state [St] only: they are not given the wrapper objects nor the context
    variable. *)
Inductive ParameterKind :=
| POSITIONAL_ONLY
| POSITIONAL_OR_KEYWORD
| VAR_POSITIONAL
| KEYWORD_ONLY
| VAR_KEYWORD.

Definition kind_is (a b : ParameterKind) : bool :=
  match a, b with
  | POSITIONAL_ONLY, POSITIONAL_ONLY
  | POSITIONAL_OR_KEYWORD, POSITIONAL_OR_KEYWORD
  | VAR_POSITIONAL, VAR_POSITIONAL
  | KEYWORD_ONLY, KEYWORD_ONLY
  | VAR_KEYWORD, VAR_KEYWORD => true
  | _, _ => false
  end.

Inductive Exception (Ext : Type) :=
| RuntimeError (msg : string)
| TypeError (msg : string)
| Other (e : Ext).
Arguments RuntimeError {Ext} msg.
Arguments TypeError {Ext} msg.
Arguments Other {Ext} e.

(** [inspect.Parameter]: [None] in [annotation] and [default] stands for
    [inspect.Parameter.empty]. *)
Record InspectParameter (Ann Obj : Type) := {
  name : string;
  annotation : option Ann;
  default : option (option Obj);
  kind : ParameterKind
}.

Class Host := {
  Obj : Type;
  Ann : Type;
  Callable : Type;
  Container : Type;
  Ext : Type;
  St : Type;
  inspect_signature : Callable -> Exception Ext + list (InspectParameter Ann Obj);
  aget : Container -> Ann -> St -> (Exception Ext + option Obj) * St;
  apply : Callable -> list (option Obj) -> Dict (option Obj) -> St ->
          (Exception Ext + option Obj) * St;
  (** [os.environ.get("LIGHTBULB_DI_DISABLED")] when the module is loaded *)
  LIGHTBULB_DI_DISABLED : option string
}.

Abbreviation Any := (option Obj).
Abbreviation Exc := (Exception Ext).
Abbreviation Param := (InspectParameter Ann Obj).

Section Analyzer.
Context {H : Host}.

(** The test of lines 61-68, after the annotation has been found present:
    the parameter is passed over. *)
Definition passed_over (passed_kwargs : list string) (parameter : Param)
  : bool :=
  match default parameter with None => false | Some _ => true end
  || kind_is (kind parameter) POSITIONAL_ONLY
  || contains passed_kwargs (name parameter).

(** The loop of lines 59-71 over the sliced parameter list. *)
Fixpoint collect (passed_kwargs : list string) (ps : list Param)
         (injectable_parameters : Dict Ann) : Dict Ann :=
  match ps with
  | [] => injectable_parameters
  | parameter :: rest =>
      match annotation parameter with
      | None => collect passed_kwargs rest injectable_parameters
      | Some a =>
          if passed_over passed_kwargs parameter
          then collect passed_kwargs rest injectable_parameters
          else collect passed_kwargs rest
                       (dict_set injectable_parameters (name parameter) a)
      end
  end.

Definition find_injectable_kwargs (func : Callable) (passed_args : Z)
           (passed_kwargs : list string) : Exc + Dict Ann :=
  match inspect_signature func with
  | inl e => inl e
  | inr parameters =>
      inr (collect passed_kwargs (slice_from parameters passed_args) dict_empty)
  end.

End Analyzer.

(** ** The analyzer with the inspection in its state

    Line 56 calls [inspect.signature(func, eval_str=True)] at every
    analysis: an annotation written as a string is evaluated each time, in
    the state of that moment, and evaluating it may change the state.
    [find_injectable_kwargs] above is the analysis from the outcome of one
    inspection; [find_injectable_kwargs_in] makes the inspection in a state,
    by [evaluate], and returns the state the inspection left. *)
Section Reevaluation.
Context {H : Host}.
Variable evaluate : Callable -> St -> (Exc + list Param) * St.

Definition find_injectable_kwargs_in (func : Callable) (passed_args : Z)
           (passed_kwargs : list string) (st : St) : (Exc + Dict Ann) * St :=
  match evaluate func st with
  | (inl e, st') => (inl e, st')
  | (inr parameters, st') =>
      (inr (collect passed_kwargs (slice_from parameters passed_args)
                    dict_empty),
       st')
  end.

End Reevaluation.

(** ** The store, the ambient handle and the effects of the wrapper *)
Section Effects.
Context {H : Host}.

(** References to [LazyInjecting] instances: positions in the store. *)
Definition Ref : Type := nat.

(** The two slots [__init__] fills.  The slots [_processed] and
    [__lb_cmd_invoke_method__] are declared and never touched by this
    module. *)
Record LazyInjectingObj := {
  _func : Callable;
  _self : Any
}.

(** What the wrapper asks of its collaborators, in the order it asks. *)
Inductive Event :=
| EvAnalyze (func : Callable) (passed_args : Z) (passed_kwargs : list string)
| EvAget (di_container : Container) (type : Ann)
| EvCall (func : Callable) (args : list Any) (kwargs : Dict Any).

Record World := {
  objects : list LazyInjectingObj;
  (** the context variable [_di_container] in the current context;
      [None] when it has no value *)
  _di_container : option Container;
  external : St;
  trace : list Event
}.

Inductive Result (A : Type) :=
| Returned (a : A)
| Raised (e : Exc)
| Invalid.
Arguments Returned {A} a.
Arguments Raised {A} e.
Arguments Invalid {A}.

Definition M (A : Type) : Type := World -> Result A * World.

Definition ret {A : Type} (a : A) : M A := fun w => (Returned a, w).

Definition raise {A : Type} (e : Exc) : M A := fun w => (Raised e, w).

Definition bind {A B : Type} (m : M A) (k : A -> M B) : M B :=
  fun w =>
    match m w with
    | (Returned a, w') => k a w'
    | (Raised e, w') => (Raised e, w')
    | (Invalid, w') => (Invalid, w')
    end.

Definition of_outcome {A : Type} (o : Exc + A) : Result A :=
  match o with
  | inl e => Raised e
  | inr a => Returned a
  end.

Definition emit (ev : Event) (w : World) : World :=
  {| objects := objects w;
     _di_container := _di_container w;
     external := external w;
     trace := trace w ++ [ev] |}.

Definition with_external (st : St) (w : World) : World :=
  {| objects := objects w;
     _di_container := _di_container w;
     external := st;
     trace := trace w |}.

(** [_di_container.get(None)] *)
Definition context_get : M (option Container) :=
  fun w => (Returned (_di_container w), w).

(** Reading a slot of a wrapper.  A reference outside the store never
    arises from Python code; the model marks it [Invalid]. *)
Definition getattr {A : Type} (slot : LazyInjectingObj -> A) (self : Ref)
  : M A :=
  fun w =>
    match nth_error (objects w) self with
    | Some o => (Returned (slot o), w)
    | None => (Invalid, w)
    end.

(** Creation of a wrapper object with both slots set ([__init__]). *)
Definition allocate (o : LazyInjectingObj) : M Ref :=
  fun w =>
    (Returned (List.length (objects w)),
     {| objects := objects w ++ [o];
        _di_container := _di_container w;
        external := external w;
        trace := trace w |}).

(** The call of the analyzer, recorded. *)
Definition analyze (func : Callable) (passed_args : Z)
           (passed_kwargs : list string) : M (Dict Ann) :=
  fun w =>
    (of_outcome (find_injectable_kwargs func passed_args passed_kwargs),
     emit (EvAnalyze func passed_args passed_kwargs) w).

(** [await di_container.aget(type)] *)
Definition await_aget (di_container : Container) (type : Ann) : M Any :=
  fun w =>
    let w1 := emit (EvAget di_container type) w in
    let (o, st) := aget di_container type (external w1) in
    (of_outcome o, with_external st w1).

(** The awaited call of [func] with positional arguments [args] and
    keyword arguments [kwargs]. *)
Definition await_call (func : Callable) (args : list Any) (kwargs : Dict Any)
  : M Any :=
  fun w =>
    let w1 := emit (EvCall func args kwargs) w in
    let (o, st) := apply func args kwargs (external w1) in
    (of_outcome o, with_external st w1).

End Effects.

Arguments Returned {H A} a.
Arguments Raised {H A} e.
Arguments Invalid {H A}.

Declare Scope py_scope.
Notation "x <- m ;; k" := (bind m (fun x => k))
  (at level 61, m at next level, right associativity) : py_scope.
Local Open Scope py_scope.

(** ** The module proper *)
Section Module_di.
Context {H : Host}.

(** [os.environ.get("LIGHTBULB_DI_DISABLED", "false").lower() == "true"],
    evaluated once, when the module is loaded. *)
Definition di_disabled : bool :=
  String.eqb
    (lower (match LIGHTBULB_DI_DISABLED with Some v => v | None => "false" end))
    "true".

(** What the name [LazyInjecting], called, hands back: the callable it was
    given, or a reference to a wrapper. *)
Inductive Constructed :=
| Original (func : Callable)
| Wrapper (r : Ref).

(** [LazyInjecting.__init__] on a fresh object *)
Definition __init__ (func : Callable) (self_ : Any) : M Ref :=
  allocate {| _func := func; _self := self_ |}.

(** [FakeLazyInjecting.__new__] *)
Definition FakeLazyInjecting (func : Callable) (self_ : Any) : M Constructed :=
  ret (Original func).

(** The module-level name [LazyInjecting] after the branch of line 117. *)
Definition LazyInjecting (func : Callable) (self_ : Any) : M Constructed :=
  if di_disabled
  then FakeLazyInjecting func self_
  else r <- __init__ func self_ ;; ret (Wrapper r).

Definition __get__ (self : Ref) (instance : Any) (owner : Any)
  : M Constructed :=
  match instance with
  | Some _ =>
      func <- getattr _func self ;;
      LazyInjecting func instance
  | None => ret (Wrapper self)
  end.

Definition is_not_none (v : Any) : bool :=
  match v with Some _ => true | None => false end.

Definition int_of_bool (b : bool) : Z := if b then 1 else 0.

(** The loop of lines 109-110. *)
Fixpoint resolve (di_container : Container) (items : list (string * Ann))
         (new_kwargs : Dict Any) : M (Dict Any) :=
  match items with
  | [] => ret new_kwargs
  | (name, type) :: rest =>
      v <- await_aget di_container type ;;
      resolve di_container rest (dict_set new_kwargs name v)
  end.

Definition not_populated : string :=
  "cannot prepare dependency injection as client not yet populated".

Definition multiple_values : string :=
  "LazyInjecting.__call__() got multiple values for argument 'self'".

(** The method is declared with the parameters [self], the variadic
    positional [args] and the variadic keyword [kwargs] (line 99).  The
    wrapper called is bound to [self], so a keyword argument named [self] is
    a second value for that parameter: the call raises [TypeError] when the
    arguments are bound, before line 100.  Every other keyword goes to
    [kwargs]. *)
Definition __call__ (self : Ref) (args : list Any) (kwargs : Dict Any)
  : M Any :=
  if contains (dict_keys kwargs) "self"
  then raise (TypeError multiple_values)
  else
  let new_kwargs := dict_update dict_empty kwargs in
  di_container <- context_get ;;
  match di_container with
  | None => raise (RuntimeError not_populated)
  | Some di_container =>
      func <- getattr _func self ;;
      self_ <- getattr _self self ;;
      injectables <-
        analyze func
                (Z.of_nat (List.length args) + int_of_bool (is_not_none self_))
                (dict_keys kwargs) ;;
      new_kwargs <- resolve di_container (dict_items injectables) new_kwargs ;;
      self_ <- getattr _self self ;;
      if is_not_none self_
      then
        func <- getattr _func self ;;
        self_ <- getattr _self self ;;
        await_call func (self_ :: args) new_kwargs
      else
        func <- getattr _func self ;;
        await_call func args new_kwargs
  end.

(** The host calling what the constructor handed back. *)
Definition call_constructed (target : Constructed) (args : list Any)
           (kwargs : Dict Any) : M Any :=
  match target with
  | Original func => await_call func args kwargs
  | Wrapper r => __call__ r args kwargs
  end.

End Module_di.

(** ** A small concrete host, for running the definitions

    Objects and annotations are labels; the external state is a journal of
    what the resolver and the callables did. *)
Module Demo.

Definition parameter (n : string) (a : option string)
           (d : option (option string)) (k : ParameterKind)
  : InspectParameter string string :=
  {| name := n; annotation := a; default := d; kind := k |}.

(** [async def handler(a: int, b: str = "x", *, c: Widget)] *)
Definition handler_parameters : list (InspectParameter string string) :=
  [ parameter "a" (Some "int") None POSITIONAL_OR_KEYWORD;
    parameter "b" (Some "str") (Some (Some "x")) POSITIONAL_OR_KEYWORD;
    parameter "c" (Some "Widget") None KEYWORD_ONLY ].

(** [async def method(self, x: int, svc: Service, db: Database)] *)
Definition method_parameters : list (InspectParameter string string) :=
  [ parameter "self" None None POSITIONAL_OR_KEYWORD;
    parameter "x" (Some "int") None POSITIONAL_OR_KEYWORD;
    parameter "svc" (Some "Service") None POSITIONAL_OR_KEYWORD;
    parameter "db" (Some "Database") None POSITIONAL_OR_KEYWORD ].

(** [async def variadic(p: int, /, *rest: Extra, **options: Opts)] *)
Definition variadic_parameters : list (InspectParameter string string) :=
  [ parameter "p" (Some "int") None POSITIONAL_ONLY;
    parameter "rest" (Some "Extra") None VAR_POSITIONAL;
    parameter "options" (Some "Opts") None VAR_KEYWORD ].

Definition demo_signature (func : string)
  : Exception string + list (InspectParameter string string) :=
  if String.eqb func "handler" then inr handler_parameters
  else if String.eqb func "method" then inr method_parameters
  else if String.eqb func "variadic" then inr variadic_parameters
  else if String.eqb func "needy" then
    inr [ parameter "m" (Some "Missing") None POSITIONAL_OR_KEYWORD;
          parameter "w" (Some "Widget") None POSITIONAL_OR_KEYWORD ]
  else inl (Other "NameError").

(** [async def fresh(x: "make()")], where each evaluation of the
    annotation makes a new type: [T0] at the first inspection, [T1] at the
    later ones.  The journal records the evaluations.  The other callables
    are inspected as above, the state left alone. *)
Definition reevaluate (func : string) (st : list string)
  : (Exception string + list (InspectParameter string string)) * list string :=
  if String.eqb func "fresh"
  then (inr [ parameter "x"
                        (Some match st with [] => "T0" | _ :: _ => "T1" end)
                        None POSITIONAL_OR_KEYWORD ],
        (st ++ ["make()"])%list)
  else (demo_signature func, st).

(** The resolver knows every type but [Missing]. *)
Definition demo_aget (c : nat) (type : string) (st : list string)
  : (Exception string + option string) * list string :=
  if String.eqb type "Missing"
  then (inl (Other "ServiceNotFoundError"), (st ++ [("aget " ++ type)%string])%list)
  else (inr (Some ("<" ++ type ++ ">")%string), (st ++ [("aget " ++ type)%string])%list).

Definition demo_apply (func : string) (args : list (option string))
           (kwargs : Dict (option string)) (st : list string)
  : (Exception string + option string) * list string :=
  (inr (Some "done"), (st ++ [("ran " ++ func)%string])%list).

Definition host (flag : option string) : Host :=
  {| Obj := string;
     Ann := string;
     Callable := string;
     Container := nat;
     Ext := string;
     St := list string;
     inspect_signature := demo_signature;
     aget := demo_aget;
     apply := demo_apply;
     LIGHTBULB_DI_DISABLED := flag |}.

Definition enabled : Host := host None.
Definition disabled : Host := host (Some "True").

(** A method wrapper bound to the instance [me], the plain handler, and a
    callable that needs a type the resolver does not know. *)
Definition bound_method : @LazyInjectingObj enabled :=
  {| _func := "method" : @Callable enabled; _self := Some "me" |}.

Definition plain_handler : @LazyInjectingObj enabled :=
  {| _func := "handler" : @Callable enabled; _self := None |}.

Definition needy : @LazyInjectingObj enabled :=
  {| _func := "needy" : @Callable enabled; _self := None |}.

(** A world whose resolver scope is active, and one where it is not. *)
Definition ready : @World enabled :=
  {| objects := [bound_method; plain_handler; needy];
     _di_container := Some 7%nat;
     external := [];
     trace := [] |}.

Definition cold : @World enabled :=
  {| objects := [bound_method; plain_handler; needy];
     _di_container := None;
     external := [];
     trace := [] |}.

(** A wrapper around a callable whose signature cannot be produced, the
    method unbound, and a world holding them too. *)
Definition broken : @LazyInjectingObj enabled :=
  {| _func := "nowhere" : @Callable enabled; _self := None |}.

Definition unbound_method : @LazyInjectingObj enabled :=
  {| _func := "method" : @Callable enabled; _self := None |}.

Definition workshop : @World enabled :=
  {| objects := [bound_method; plain_handler; needy; broken; unbound_method];
     _di_container := Some 7%nat;
     external := [];
     trace := [] |}.

(** [*rest: Extra] *)
Definition rest_parameter : InspectParameter string string :=
  parameter "rest" (Some "Extra") None VAR_POSITIONAL.

End Demo.

(** ** Vocabulary of the statements *)
Section Vocabulary.
Context {H : Host}.
Implicit Types (p : Param) (K : list string).

(** The four conditions of the docstring and of lines 61-68, as a test. *)
Definition eligible K p : bool :=
  match annotation p with
  | None => false
  | Some _ => negb (passed_over K p)
  end.

Definition entries (ps : list Param) : Dict Ann :=
  flat_map
    (fun p =>
       match annotation p with
       | Some a => [(name p, a)]
       | None => []
       end) ps.

(** The eligible parameters past the first [N], in declaration order. *)
Definition eligible_parameters (parameters : list Param) (N : nat) K
  : list Param :=
  filter (eligible K) (skipn N parameters).

(** The resolver answers every request of a list of types, one after the
    other, each lookup starting in the state the previous one left. *)
Inductive Resolved (c : Container) : St -> list Ann -> list Any -> St -> Prop :=
| Resolved_nil st : Resolved c st [] [] st
| Resolved_cons st type v st1 types vs st2 :
    aget c type st = (inr v, st1) ->
    Resolved c st1 types vs st2 ->
    Resolved c st (type :: types) (v :: vs) st2.

(** The resolver answers the requests before position [length vs] and
    raises [e] on the next one; [asked] are the types requested, the one
    that raised last. *)
Inductive FirstFailure (c : Container)
  : St -> list Ann -> list Any -> list Ann -> Exc -> St -> Prop :=
| Failure_here st type e st1 types :
    aget c type st = (inl e, st1) ->
    FirstFailure c st (type :: types) [] [type] e st1
| Failure_later st type v st1 types vs asked e st2 :
    aget c type st = (inr v, st1) ->
    FirstFailure c st1 types vs asked e st2 ->
    FirstFailure c st (type :: types) (v :: vs) (type :: asked) e st2.

(** The types requested from the resolver, in the order of the requests. *)
Definition requested (evs : list Event) : list Ann :=
  flat_map (fun ev => match ev with EvAget _ type => [type] | _ => [] end) evs.

(** The calls of wrapped callables, in order. *)
Definition delegated (evs : list Event)
  : list (Callable * list Any * Dict Any) :=
  flat_map
    (fun ev =>
       match ev with
       | EvCall func args kwargs => [(func, args, kwargs)]
       | _ => []
       end) evs.

(** The calls of the analyzer, in order. *)
Definition analyzed (evs : list Event) : list (Callable * Z * list string) :=
  flat_map
    (fun ev =>
       match ev with
       | EvAnalyze func n K => [(func, n, K)]
       | _ => []
       end) evs.

(** The positional arguments of the delegated call. *)
Definition delegate_args (o : LazyInjectingObj) (args : list Any) : list Any :=
  match _self o with
  | Some receiver => Some receiver :: args
  | None => args
  end.

(** The positional count handed to the analyzer. *)
Definition positional_count (o : LazyInjectingObj) (args : list Any) : nat :=
  match _self o with
  | Some _ => S (List.length args)
  | None => List.length args
  end.

(** The analysis the wrapper [o] asks for on a call with [args], [kwargs]. *)
Definition analysis_of (o : LazyInjectingObj) (args : list Any)
           (kwargs : Dict Any) : Event :=
  EvAnalyze (_func o) (Z.of_nat (positional_count o args)) (dict_keys kwargs).

Definition injectables_of (o : LazyInjectingObj) (args : list Any)
           (kwargs : Dict Any) : Exc + Dict Ann :=
  find_injectable_kwargs (_func o) (Z.of_nat (positional_count o args))
                         (dict_keys kwargs).

(** The annotations of annotated parameters, in order. *)
Definition annotations (ps : list Param) : list Ann := map snd (entries ps).

(** The world after the external state became [st] and the events [evs]
    were recorded. *)
Definition after (w : World) (st : St) (evs : list Event) : World :=
  {| objects := objects w;
     _di_container := _di_container w;
     external := st;
     trace := (trace w ++ evs)%list |}.

(** The store and the ambient handle are as before. *)
Definition same_store (w w' : World) : Prop :=
  objects w' = objects w /\ _di_container w' = _di_container w.

Definition preserves {A : Type} (m : M A) : Prop :=
  forall w, same_store w (snd (m w)).

(** Two parameters that differ at most in the object their annotation
    evaluates to. *)
Definition same_but_annotation_value (p p' : Param) : Prop :=
  name p = name p' /\ default p = default p' /\ kind p = kind p' /\
  (annotation p = None <-> annotation p' = None).

(** The sixteen spellings of [true]. *)
Definition true_spellings : list string :=
  [ "true"; "truE"; "trUe"; "trUE"; "tRue"; "tRuE"; "tRUe"; "tRUE";
    "True"; "TruE"; "TrUe"; "TrUE"; "TRue"; "TRuE"; "TRUe"; "TRUE" ].

End Vocabulary.

(** * Properties *)

Unset Implicit Arguments.

(** ** Dictionaries *)
Section DictFacts.
Context {V : Type}.
Implicit Types (d : Dict V) (k : string) (v : V).

Lemma contains_In (c : list string) k : contains c k = true <-> In k c.
Proof.
  unfold contains. rewrite existsb_exists. split.
  - intros [x [Hx Hk]]. apply String.eqb_eq in Hk. now subst.
  - intros Hin. exists k. split; [assumption | apply String.eqb_refl].
Qed.

Lemma contains_false (c : list string) k : contains c k = false <-> ~ In k c.
Proof.
  rewrite <- contains_In. destruct (contains c k); split; congruence.
Qed.

Lemma dict_set_fresh d k v :
  ~ In k (dict_keys d) -> dict_set d k v = (d ++ [(k, v)])%list.
Proof.
  induction d as [| [k' v'] d IH]; simpl; intros Hk; [reflexivity |].
  destruct (String.eqb_spec k' k) as [-> | _].
  - exfalso. apply Hk. now left.
  - f_equal. apply IH. intros Hin. apply Hk. now right.
Qed.

Lemma dict_get_set_same d k v : dict_get (dict_set d k v) k = Some v.
Proof.
  induction d as [| [k' v'] d IH]; simpl.
  - now rewrite String.eqb_refl.
  - destruct (String.eqb_spec k' k) as [-> | Hne]; simpl.
    + now rewrite String.eqb_refl.
    + apply String.eqb_neq in Hne. now rewrite Hne.
Qed.

Lemma dict_get_set_other d k k' v :
  k' <> k -> dict_get (dict_set d k v) k' = dict_get d k'.
Proof.
  intros Hne. induction d as [| [k0 v0] d IH]; simpl.
  - destruct (String.eqb_spec k k'); [congruence | reflexivity].
  - destruct (String.eqb_spec k0 k) as [-> | Hk0]; simpl.
    + destruct (String.eqb_spec k k'); [congruence | reflexivity].
    + now rewrite IH.
Qed.

Lemma dict_get_in d k v :
  NoDup (dict_keys d) -> In (k, v) d -> dict_get d k = Some v.
Proof.
  induction d as [| [k' v'] d IH]; simpl; intros Hnd Hin; [contradiction |].
  inversion Hnd as [| ? ? Hnotin Hnd']; subst.
  destruct Hin as [Heq | Hin].
  - inversion Heq; subst. now rewrite String.eqb_refl.
  - destruct (String.eqb_spec k' k) as [-> | _].
    + exfalso. apply Hnotin. unfold dict_keys.
      change k with (fst (k, v)). now apply in_map.
    + now apply IH.
Qed.

(** Updating with entries whose keys are new and pairwise distinct appends
    them; in particular [{}.update(kwargs)] is a copy of [kwargs]. *)
Lemma dict_update_fresh (other d : Dict V) :
  NoDup (dict_keys d ++ dict_keys other) ->
  dict_update d other = (d ++ other)%list.
Proof.
  unfold dict_update. revert d.
  induction other as [| [k v] other IH]; intros d Hnd; simpl.
  - now rewrite app_nil_r.
  - simpl in Hnd. rewrite dict_set_fresh.
    + rewrite IH.
      * now rewrite <- app_assoc.
      * unfold dict_keys. rewrite map_app. simpl. now rewrite <- app_assoc.
    + apply NoDup_remove_2 in Hnd. intros Hin. apply Hnd.
      apply in_or_app. now left.
Qed.

Lemma dict_update_copy (kwargs : Dict V) :
  NoDup (dict_keys kwargs) -> dict_update dict_empty kwargs = kwargs.
Proof. intros Hnd. now rewrite dict_update_fresh. Qed.

End DictFacts.

(** ** The analyzer *)
Section AnalyzerFacts.
Context {H : Host}.
Implicit Types (p : Param) (K : list string).

Lemma kind_is_eq (a b : ParameterKind) : kind_is a b = true <-> a = b.
Proof. destruct a, b; simpl; split; congruence. Qed.

Lemma eligible_iff K p :
  eligible K p = true <->
  annotation p <> None /\ default p = None /\
  kind p <> POSITIONAL_ONLY /\ ~ In (name p) K.
Proof.
  unfold eligible, passed_over.
  destruct (annotation p) as [a |].
  - rewrite negb_true_iff, !orb_false_iff, contains_false.
    destruct (default p) as [dv |].
    + split; [intros [[Hd _] _]; discriminate | intros (_ & Hd & _); discriminate].
    + split.
      * intros [[_ Hk] HK]. repeat split; try congruence; try assumption.
        intros Hp. apply kind_is_eq in Hp. congruence.
      * intros (_ & _ & Hk & HK). repeat split; try assumption.
        destruct (kind_is (kind p) POSITIONAL_ONLY) eqn:E; [| reflexivity].
        apply kind_is_eq in E. contradiction.
  - split; [discriminate | intros [Ha _]; congruence].
Qed.

Lemma slice_from_count (A : Type) (l : list A) (N : nat) :
  slice_from l (Z.of_nat N) = skipn N l.
Proof.
  unfold slice_from. destruct (Z.ltb_spec (Z.of_nat N) 0) as [Hlt | _]; [lia |].
  now rewrite Nat2Z.id.
Qed.

Lemma entries_keys (ps : list Param) :
  Forall (fun p => annotation p <> None) ps ->
  dict_keys (entries ps) = map (@name _ _) ps.
Proof.
  induction 1 as [| p ps Hp _ IH]; simpl; [reflexivity |].
  destruct (annotation p); [| congruence]. simpl. now f_equal.
Qed.

Lemma entries_values (ps : list Param) :
  Forall (fun p => annotation p <> None) ps ->
  map (fun kv => Some (snd kv)) (entries ps) = map (@annotation _ _) ps.
Proof.
  induction 1 as [| p ps Hp _ IH]; simpl; [reflexivity |].
  destruct (annotation p); [| congruence]. simpl. now f_equal.
Qed.

Lemma eligible_annotated K (ps : list Param) :
  Forall (fun p => annotation p <> None) (filter (eligible K) ps).
Proof.
  apply Forall_forall. intros p Hp. apply filter_In in Hp.
  destruct Hp as [_ Hp]. now apply eligible_iff in Hp.
Qed.

(** With names that are new to the accumulator and pairwise distinct, the
    loop appends the eligible parameters in order. *)
Lemma collect_fresh K (ps : list Param) (acc : Dict Ann) :
  NoDup (dict_keys acc ++ map (@name _ _) ps) ->
  collect K ps acc = (acc ++ entries (filter (eligible K) ps))%list.
Proof.
  revert acc. induction ps as [| p ps IH]; intros acc Hnd; simpl.
  - now rewrite app_nil_r.
  - simpl in Hnd. unfold eligible at 1.
    destruct (annotation p) as [a |] eqn:Ea.
    + destruct (passed_over K p); simpl.
      * apply IH. now apply NoDup_remove_1 in Hnd.
      * rewrite Ea. rewrite dict_set_fresh.
        -- rewrite IH.
           ++ now rewrite <- app_assoc.
           ++ unfold dict_keys. rewrite map_app. simpl.
              now rewrite <- app_assoc.
        -- apply NoDup_remove_2 in Hnd. intros Hin. apply Hnd.
           apply in_or_app. now left.
    + apply IH. now apply NoDup_remove_1 in Hnd.
Qed.

Lemma In_entries (ps : list Param) k a :
  In (k, a) (entries ps) <->
  exists p, In p ps /\ name p = k /\ annotation p = Some a.
Proof.
  unfold entries. rewrite in_flat_map. split.
  - intros [p [Hp Hin]]. exists p. split; [assumption |].
    destruct (annotation p) as [a' |]; simpl in Hin; [| contradiction].
    destruct Hin as [Heq | []]. inversion Heq; subst. now split.
  - intros [p (Hp & Hn & Ha)]. exists p. split; [assumption |].
    rewrite Ha. left. now subst.
Qed.

Lemma In_skipn (A : Type) (l : list A) (N : nat) (x : A) :
  In x (skipn N l) <-> exists j, (N <= j)%nat /\ nth_error l j = Some x.
Proof.
  split.
  - intros Hin. apply In_nth_error in Hin. destruct Hin as [j Hj].
    rewrite nth_error_skipn in Hj. exists (N + j)%nat. split; [lia | assumption].
  - intros [j [Hle Hj]]. apply nth_error_In with (n := (j - N)%nat).
    rewrite nth_error_skipn. now replace (N + (j - N))%nat with j by lia.
Qed.

Lemma unique_position (ps : list Param) i j p q :
  NoDup (map (@name _ _) ps) ->
  nth_error ps i = Some p -> nth_error ps j = Some q ->
  name p = name q -> i = j /\ p = q.
Proof.
  intros Hnd Hi Hj Hname.
  assert (Hij : i = j).
  { rewrite NoDup_nth_error in Hnd. apply Hnd.
    - rewrite length_map. apply nth_error_Some. congruence.
    - rewrite !nth_error_map, Hi, Hj. simpl. now f_equal. }
  subst j. split; [reflexivity | congruence].
Qed.

Lemma NoDup_skipn (A : Type) (l : list A) (N : nat) :
  NoDup l -> NoDup (skipn N l).
Proof.
  intros Hnd. rewrite <- (firstn_skipn N l) in Hnd.
  now apply NoDup_app_remove_l in Hnd.
Qed.

Lemma NoDup_map_filter (A B : Type) (g : A -> B) (f : A -> bool) (l : list A) :
  NoDup (map g l) -> NoDup (map g (filter f l)).
Proof.
  induction l as [| x l IH]; simpl; intros Hnd; [constructor |].
  inversion Hnd as [| ? ? Hx Hnd']; subst.
  destruct (f x); simpl; [| now apply IH]. constructor; [| now apply IH].
  intros Hin. apply Hx. apply in_map_iff in Hin. destruct Hin as [y [Hy Hin]].
  apply filter_In in Hin. apply in_map_iff. exists y. now split.
Qed.

(** The result of the analyzer on a signature with distinct names. *)
Lemma find_injectable_kwargs_entries func (parameters : list Param) (N : nat) K :
  inspect_signature func = inr parameters ->
  NoDup (map (@name _ _) parameters) ->
  find_injectable_kwargs func (Z.of_nat N) K =
  inr (entries (eligible_parameters parameters N K)).
Proof.
  intros Hsig Hnd. unfold find_injectable_kwargs. rewrite Hsig.
  rewrite slice_from_count, collect_fresh; [reflexivity |].
  simpl. rewrite <- skipn_map. now apply NoDup_skipn.
Qed.

Lemma eligible_parameters_names (parameters : list Param) (N : nat) K :
  dict_keys (entries (eligible_parameters parameters N K)) =
  map (@name _ _) (eligible_parameters parameters N K).
Proof. apply entries_keys, eligible_annotated. Qed.

Lemma eligible_parameters_NoDup (parameters : list Param) (N : nat) K :
  NoDup (map (@name _ _) parameters) ->
  NoDup (map (@name _ _) (eligible_parameters parameters N K)).
Proof.
  intros Hnd. unfold eligible_parameters. apply NoDup_map_filter.
  rewrite <- skipn_map. now apply NoDup_skipn.
Qed.

End AnalyzerFacts.

Section AnalyzerClaims.
Context {H : Host}.
Implicit Types (p : Param) (K : list string).


Lemma In_eligible_parameters (parameters : list Param) (N : nat) K i p :
  NoDup (map (@name _ _) parameters) ->
  nth_error parameters i = Some p ->
  In (name p) (map (@name _ _) (eligible_parameters parameters N K)) <->
  (N <= i)%nat /\ eligible K p = true.
Proof.
  intros Hnd Hi. unfold eligible_parameters. rewrite in_map_iff. split.
  - intros [q [Hname Hq]]. apply filter_In in Hq. destruct Hq as [Hq He].
    apply In_skipn in Hq. destruct Hq as [j [Hle Hj]].
    destruct (unique_position parameters i j p q Hnd Hi Hj (eq_sym Hname))
      as [-> ->].
    now split.
  - intros [Hle He]. exists p. split; [reflexivity |].
    apply filter_In. split; [| assumption].
    apply In_skipn. now exists i.
Qed.

(** C1.  On a callable whose signature [inspect] produces (parameter names
    are pairwise distinct, as in every Python signature), with [N] positional
    arguments supplied and [K] the supplied keyword names, the analyzer
    returns a mapping [m]; a formal parameter is a key of [m] if and only if
    it is not among the first [N], it carries an annotation, it has no
    default, it is not positional-only and its name is not in [K]; a
    parameter that is a key is mapped to its annotation; and [m] has no key
    that is not a parameter's name. *)
Theorem find_injectable_kwargs_iff
        func (parameters : list Param) (N : nat) K :
  inspect_signature func = inr parameters ->
  NoDup (map (@name _ _) parameters) ->
  exists m,
    find_injectable_kwargs func (Z.of_nat N) K = inr m /\
    (forall i p,
        nth_error parameters i = Some p ->
        (In (name p) (dict_keys m) <->
         (N <= i)%nat /\ annotation p <> None /\ default p = None /\
         kind p <> POSITIONAL_ONLY /\ ~ In (name p) K) /\
        (In (name p) (dict_keys m) -> dict_get m (name p) = annotation p)) /\
    (forall k, In k (dict_keys m) ->
               exists p, In p parameters /\ name p = k).
Proof.
  intros Hsig Hnd.
  exists (entries (eligible_parameters parameters N K)).
  split; [now apply find_injectable_kwargs_entries |].
  rewrite eligible_parameters_names. split.
  - intros i p Hi.
    rewrite (In_eligible_parameters parameters N K i p Hnd Hi), eligible_iff.
    split; [reflexivity |].
    intros [Hle He].
    assert (Hin : In p (eligible_parameters parameters N K)).
    { apply filter_In. split; [| now apply eligible_iff].
      apply In_skipn. now exists i. }
    destruct (annotation p) as [a |] eqn:Ea; [| now destruct He].
    apply dict_get_in.
    + rewrite eligible_parameters_names.
      now apply eligible_parameters_NoDup.
    + apply In_entries. now exists p.
  - intros k Hk. apply in_map_iff in Hk. destruct Hk as [p [Hname Hp]].
    exists p. split; [| assumption].
    apply filter_In in Hp. destruct Hp as [Hp _].
    apply In_skipn in Hp. destruct Hp as [j [_ Hj]].
    now apply nth_error_In in Hj.
Qed.

Lemma find_injectable_kwargs_in_pure func (N : Z) K st :
  find_injectable_kwargs_in (fun f st0 => (inspect_signature f, st0))
                            func N K st =
  (find_injectable_kwargs func N K, st).
Proof.
  unfold find_injectable_kwargs_in, find_injectable_kwargs.
  now destruct (inspect_signature func).
Qed.







End AnalyzerClaims.

(** ** The wrapper *)
Section WrapperFacts.
Context {H : Host}.

Lemma requested_agets c (types : list Ann) :
  requested (map (EvAget c) types) = types.
Proof. induction types; simpl; [reflexivity | now f_equal]. Qed.

Lemma delegated_agets c (types : list Ann) :
  delegated (map (EvAget c) types) = [].
Proof. induction types; simpl; [reflexivity | assumption]. Qed.

Lemma analyzed_agets c (types : list Ann) :
  analyzed (map (EvAget c) types) = [].
Proof. induction types; simpl; [reflexivity | assumption]. Qed.

Lemma Resolved_length c st types vs st' :
  Resolved c st types vs st' -> List.length vs = List.length types.
Proof. induction 1; simpl; [reflexivity | now f_equal]. Qed.

Lemma FirstFailure_asked c st types vs asked e st' :
  FirstFailure c st types vs asked e st' ->
  asked = firstn (S (List.length vs)) types /\
  (List.length vs < List.length types)%nat.
Proof.
  induction 1 as [| ? ? ? ? ? ? ? ? ? _ ? [IH1 IH2]]; simpl.
  - split; [reflexivity | lia].
  - split; [now f_equal | lia].
Qed.

(** Every run of the loop is of one of the two kinds. *)
Lemma resolution_total c (types : list Ann) st :
  (exists vs st', Resolved c st types vs st') \/
  (exists vs asked e st', FirstFailure c st types vs asked e st').
Proof.
  revert st. induction types as [| type types IH]; intros st.
  - left. exists [], st. constructor.
  - destruct (aget c type st) as [[e | v] st1] eqn:E.
    + right. exists [], [type], e, st1. now constructor.
    + destruct (IH st1) as [(vs & st' & Hr) | (vs & asked & e & st' & Hf)].
      * left. exists (v :: vs), st'. econstructor; eassumption.
      * right. exists (v :: vs), (type :: asked), e, st'.
        econstructor; eassumption.
Qed.

(** ... and not of both. *)
Lemma resolution_exclusive c (types : list Ann) st vs st1 vs' asked e st2 :
  Resolved c st types vs st1 ->
  FirstFailure c st types vs' asked e st2 -> False.
Proof.
  intros Hr. revert vs' asked e st2.
  induction Hr as [| st type v st1 types vs st3 Hv _ IH];
    intros vs' asked e st2 Hf; inversion Hf; subst.
  - congruence.
  - assert (st4 = st1) by congruence. subst. eauto.
Qed.

Lemma Resolved_functional c (types : list Ann) st vs st1 vs' st1' :
  Resolved c st types vs st1 ->
  Resolved c st types vs' st1' -> vs = vs' /\ st1 = st1'.
Proof.
  intros Hr. revert vs' st1'.
  induction Hr as [| st type v st1 types vs st2 Hv _ IH];
    intros vs' st1' Hr'; inversion Hr'; subst.
  - now split.
  - match goal with
    | Ha : aget c type st = (inr ?v0, ?st3),
      Hrest : Resolved c ?st3 types _ _ |- _ =>
        assert (E : (inr v : Exc + Any, st1) = (inr v0, st3)) by congruence;
        inversion E; subst;
        destruct (IH _ _ Hrest) as [-> ->]
    end.
    now split.
Qed.

Lemma resolve_Resolved c (items : list (string * Ann)) :
  forall (kw : Dict Any) (w : World) vs st',
    Resolved c (external w) (map snd items) vs st' ->
    resolve c items kw w =
    (Returned (dict_update kw (combine (map fst items) vs)),
     after w st' (map (EvAget c) (map snd items))).
Proof.
  induction items as [| [n type] items IH]; intros kw w vs st' Hr;
    simpl in Hr; inversion Hr; subst.
  - simpl. unfold ret, after. simpl. rewrite app_nil_r. now destruct w.
  - simpl. unfold bind, await_aget. simpl.
    match goal with E : aget _ _ _ = _ |- _ => rewrite E end. simpl.
    erewrite IH by (simpl; eassumption).
    unfold after. simpl. now rewrite <- app_assoc.
Qed.

Lemma resolve_FirstFailure c (items : list (string * Ann)) :
  forall (kw : Dict Any) (w : World) vs asked e st',
    FirstFailure c (external w) (map snd items) vs asked e st' ->
    resolve c items kw w = (Raised e, after w st' (map (EvAget c) asked)).
Proof.
  induction items as [| [n type] items IH]; intros kw w vs asked e st' Hf;
    simpl in Hf; inversion Hf; subst.
  - simpl. unfold bind, await_aget. simpl.
    match goal with E : aget _ _ _ = _ |- _ => rewrite E end. reflexivity.
  - simpl. unfold bind, await_aget. simpl.
    match goal with E : aget _ _ _ = _ |- _ => rewrite E end. simpl.
    erewrite IH by (simpl; eassumption).
    unfold after. simpl. now rewrite <- app_assoc.
Qed.

Lemma passed_count (o : LazyInjectingObj) (args : list Any) :
  Z.of_nat (List.length args) + int_of_bool (is_not_none (_self o)) =
  Z.of_nat (positional_count o args).
Proof.
  unfold positional_count. destruct (_self o); simpl int_of_bool; lia.
Qed.

Ltac enter_call Hkw Hc Hlive :=
  unfold __call__; rewrite (proj2 (contains_false _ _) Hkw);
  unfold bind, context_get, getattr, analyze;
  repeat progress (cbv beta iota; rewrite ?Hc, ?Hlive);
  rewrite passed_count.

(** A keyword named [self] never reaches the body. *)
Lemma call_self_keyword self args kwargs w :
  In "self" (dict_keys kwargs) ->
  __call__ self args kwargs w = (Raised (TypeError multiple_values), w).
Proof.
  intros Hin. unfold __call__.
  now rewrite (proj2 (contains_In _ _) Hin).
Qed.

Lemma call_no_handle self args kwargs w :
  ~ In "self" (dict_keys kwargs) ->
  _di_container w = None ->
  __call__ self args kwargs w = (Raised (RuntimeError not_populated), w).
Proof.
  intros Hkw Hnone. unfold __call__.
  rewrite (proj2 (contains_false _ _) Hkw).
  unfold bind, context_get. now rewrite Hnone.
Qed.

Lemma call_analysis_raises self args kwargs w o c e :
  ~ In "self" (dict_keys kwargs) ->
  nth_error (objects w) self = Some o ->
  _di_container w = Some c ->
  injectables_of o args kwargs = inl e ->
  __call__ self args kwargs w =
  (Raised e, after w (external w) [analysis_of o args kwargs]).
Proof.
  intros Hkw Hlive Hc Hinj. unfold injectables_of in Hinj.
  enter_call Hkw Hc Hlive. rewrite Hinj. reflexivity.
Qed.

Lemma call_resolved self args kwargs w o c inj vs st1 :
  ~ In "self" (dict_keys kwargs) ->
  nth_error (objects w) self = Some o ->
  _di_container w = Some c ->
  injectables_of o args kwargs = inr inj ->
  Resolved c (external w) (map snd inj) vs st1 ->
  let kw := dict_update (dict_update dict_empty kwargs)
                        (combine (dict_keys inj) vs) in
  let r := apply (_func o) (delegate_args o args) kw st1 in
  __call__ self args kwargs w =
  (of_outcome (fst r),
   after w (snd r)
         (analysis_of o args kwargs
            :: map (EvAget c) (map snd inj)
            ++ [EvCall (_func o) (delegate_args o args) kw])).
Proof.
  intros Hkw Hlive Hc Hinj Hr kw r. unfold injectables_of in Hinj.
  enter_call Hkw Hc Hlive. rewrite Hinj. simpl of_outcome. cbv iota beta.
  unfold dict_items.
  rewrite (resolve_Resolved c inj _ _ vs st1) by exact Hr.
  simpl objects. rewrite Hlive. cbv beta iota.
  subst kw r. unfold delegate_args, await_call, dict_keys.
  destruct (_self o) as [receiver |] eqn:Eself;
    repeat progress (simpl; rewrite ?Hlive, ?Eself);
    match goal with
    | |- context [apply ?f ?a ?k ?s] => destruct (apply f a k s)
    end;
    unfold with_external, emit, after, analysis_of, dict_keys; simpl;
    rewrite <- ?app_assoc; reflexivity.
Qed.

Lemma call_first_failure self args kwargs w o c inj vs asked e st1 :
  ~ In "self" (dict_keys kwargs) ->
  nth_error (objects w) self = Some o ->
  _di_container w = Some c ->
  injectables_of o args kwargs = inr inj ->
  FirstFailure c (external w) (map snd inj) vs asked e st1 ->
  __call__ self args kwargs w =
  (Raised e, after w st1 (analysis_of o args kwargs :: map (EvAget c) asked)).
Proof.
  intros Hkw Hlive Hc Hinj Hf. unfold injectables_of in Hinj.
  enter_call Hkw Hc Hlive. rewrite Hinj. simpl of_outcome. cbv iota beta.
  unfold dict_items.
  rewrite (resolve_FirstFailure c inj _ _ vs asked e st1) by exact Hf.
  unfold after, analysis_of. simpl. now rewrite <- app_assoc.
Qed.

End WrapperFacts.

Section WrapperCases.
Context {H : Host}.

(** The three ways a call with the handle set can go. *)
Lemma call_cases self args kwargs w o c :
  ~ In "self" (dict_keys kwargs) ->
  nth_error (objects w) self = Some o ->
  _di_container w = Some c ->
  (exists e,
      injectables_of o args kwargs = inl e /\
      __call__ self args kwargs w =
      (Raised e, after w (external w) [analysis_of o args kwargs])) \/
  (exists inj vs st1,
      injectables_of o args kwargs = inr inj /\
      Resolved c (external w) (map snd inj) vs st1 /\
      __call__ self args kwargs w =
      (of_outcome
         (fst (apply (_func o) (delegate_args o args)
                     (dict_update (dict_update dict_empty kwargs)
                                  (combine (dict_keys inj) vs)) st1)),
       after w
             (snd (apply (_func o) (delegate_args o args)
                         (dict_update (dict_update dict_empty kwargs)
                                      (combine (dict_keys inj) vs)) st1))
             (analysis_of o args kwargs
                :: map (EvAget c) (map snd inj)
                ++ [EvCall (_func o) (delegate_args o args)
                           (dict_update (dict_update dict_empty kwargs)
                                        (combine (dict_keys inj) vs))]))) \/
  (exists inj vs asked e st1,
      injectables_of o args kwargs = inr inj /\
      FirstFailure c (external w) (map snd inj) vs asked e st1 /\
      __call__ self args kwargs w =
      (Raised e,
       after w st1 (analysis_of o args kwargs :: map (EvAget c) asked))).
Proof.
  intros Hkw Hlive Hc.
  destruct (injectables_of o args kwargs) as [e | inj] eqn:Hinj.
  - left. exists e. split; [reflexivity |].
    now apply call_analysis_raises with (c := c).
  - destruct (resolution_total c (map snd inj) (external w))
      as [(vs & st1 & Hr) | (vs & asked & e & st1 & Hf)].
    + right; left. exists inj, vs, st1. repeat split; try assumption.
      now apply (call_resolved self args kwargs w o c inj vs st1).
    + right; right. exists inj, vs, asked, e, st1. repeat split; try assumption.
      now apply (call_first_failure self args kwargs w o c inj vs asked e st1).
Qed.

Lemma delegated_app (xs ys : list Event) :
  delegated (xs ++ ys) = (delegated xs ++ delegated ys)%list.
Proof. apply flat_map_app. Qed.

Lemma requested_app (xs ys : list Event) :
  requested (xs ++ ys) = (requested xs ++ requested ys)%list.
Proof. apply flat_map_app. Qed.

Lemma analyzed_app (xs ys : list Event) :
  analyzed (xs ++ ys) = (analyzed xs ++ analyzed ys)%list.
Proof. apply flat_map_app. Qed.

Lemma dict_get_update_other {V : Type} (other d : Dict V) k :
  ~ In k (dict_keys other) ->
  dict_get (dict_update d other) k = dict_get d k.
Proof.
  unfold dict_update. revert d.
  induction other as [| [k' v'] other IH]; intros d Hk; simpl; [reflexivity |].
  rewrite IH.
  - apply dict_get_set_other. intros ->. apply Hk. now left.
  - intros Hin. apply Hk. now right.
Qed.

(** The value resolved for the [j]-th name is what the working map holds
    under that name once the loop is over. *)
Lemma stored_at {V : Type} (names : list string) :
  forall (vs : list V) (d : Dict V) j n v,
    NoDup names ->
    nth_error names j = Some n -> nth_error vs j = Some v ->
    dict_get (dict_update d (combine names vs)) n = Some v.
Proof.
  induction names as [| n0 names IH]; intros vs d j n v Hnd Hn Hv.
  - destruct j; discriminate.
  - inversion Hnd as [| ? ? Hfresh Hnd']; subst.
    destruct vs as [| v0 vs]; [destruct j; discriminate |].
    destruct j as [| j]; simpl in Hn, Hv.
    + inversion Hn; inversion Hv; subst. unfold dict_update. simpl.
      fold (dict_update (dict_set d n v) (combine names vs)).
      rewrite dict_get_update_other; [apply dict_get_set_same |].
      intros Hin. apply Hfresh. unfold dict_keys in Hin.
      apply in_map_iff in Hin. destruct Hin as [[k x] [Hk Hin]].
      simpl in Hk. subst k. now apply in_combine_l in Hin.
    + unfold dict_update. simpl.
      fold (dict_update (dict_set d n0 v0) (combine names vs)).
      now apply IH with (j := j).
Qed.

(** *** Frame: what a computation leaves alone *)

Lemma same_store_refl w : same_store w w.
Proof. now split. Qed.

Lemma preserves_ret {A : Type} (a : A) : preserves (ret a).
Proof. intros w. apply same_store_refl. Qed.

Lemma preserves_raise {A : Type} (e : Exc) : preserves (@raise _ A e).
Proof. intros w. apply same_store_refl. Qed.

Lemma preserves_bind {A B : Type} (m : M A) (k : A -> M B) :
  preserves m -> (forall a, preserves (k a)) -> preserves (bind m k).
Proof.
  intros Hm Hk w. unfold bind. specialize (Hm w).
  destruct (m w) as [[a | e | ] w1]; simpl in Hm; simpl; try assumption.
  specialize (Hk a w1). destruct Hm as [Ho Hc], Hk as [Ho' Hc'].
  split; congruence.
Qed.

Lemma preserves_context_get : preserves context_get.
Proof. intros w. apply same_store_refl. Qed.

Lemma preserves_getattr {A : Type} (slot : LazyInjectingObj -> A) self :
  preserves (getattr slot self).
Proof.
  intros w. unfold getattr.
  destruct (nth_error (objects w) self); apply same_store_refl.
Qed.

Lemma preserves_analyze func n K : preserves (analyze func n K).
Proof. intros w. now split. Qed.

Lemma preserves_await_aget c type : preserves (await_aget c type).
Proof.
  intros w. unfold await_aget.
  destruct (aget c type (external (emit (EvAget c type) w))). now split.
Qed.

Lemma preserves_await_call func args kwargs :
  preserves (await_call func args kwargs).
Proof.
  intros w. unfold await_call.
  destruct (apply func args kwargs (external (emit (EvCall func args kwargs) w))).
  now split.
Qed.

Create HintDb frame.
#[local] Hint Resolve preserves_ret preserves_raise preserves_context_get
  preserves_getattr preserves_analyze preserves_await_aget
  preserves_await_call : frame.

Lemma preserves_resolve c items : forall kw, preserves (resolve c items kw).
Proof.
  induction items as [| [n type] items IH]; intros kw; simpl.
  - auto with frame.
  - apply preserves_bind; [auto with frame | intros v; apply IH].
Qed.

Lemma preserves_call self args kwargs : preserves (__call__ self args kwargs).
Proof.
  unfold __call__.
  destruct (contains (dict_keys kwargs) "self"); [auto with frame |].
  apply preserves_bind; [auto with frame |].
  intros [c |]; [| auto with frame].
  repeat (apply preserves_bind; [auto using preserves_resolve with frame |];
          intros ?).
  destruct (is_not_none _);
    repeat (apply preserves_bind; [auto with frame |]; intros ?);
    auto with frame.
Qed.

(** Construction and descriptor access only ever append to the store. *)
Lemma LazyInjecting_grows func self_ w :
  exists more,
    objects (snd (LazyInjecting func self_ w)) = (objects w ++ more)%list /\
    _di_container (snd (LazyInjecting func self_ w)) = _di_container w.
Proof.
  unfold LazyInjecting, FakeLazyInjecting, __init__, allocate, bind, ret.
  destruct di_disabled; simpl.
  - exists []. now rewrite app_nil_r.
  - now exists [{| _func := func; _self := self_ |}].
Qed.

Lemma get_grows self instance owner w :
  exists more,
    objects (snd (__get__ self instance owner w)) = (objects w ++ more)%list /\
    _di_container (snd (__get__ self instance owner w)) = _di_container w.
Proof.
  unfold __get__. destruct instance as [inst |].
  - unfold bind, getattr. destruct (nth_error (objects w) self) as [o |].
    + apply LazyInjecting_grows.
    + exists []. simpl. now rewrite app_nil_r.
  - exists []. simpl. now rewrite app_nil_r.
Qed.

Lemma nth_error_grows {A : Type} (l more : list A) r x :
  nth_error l r = Some x -> nth_error (l ++ more) r = Some x.
Proof.
  intros Hr. rewrite nth_error_app1; [assumption |].
  apply nth_error_Some. congruence.
Qed.

End WrapperCases.

Section WrapperClaims.
Context {H : Host}.

(** C2.  When the ambient handle is unset, a call of the wrapper whose
    arguments bind (no keyword is named [self]) raises the configuration
    error and leaves the world as it found it: nothing was asked of the
    analyzer, of the resolver or of the wrapped callable (the trace is the
    same), and the external state, where a side effect of the wrapped
    callable would show, is untouched. *)
Theorem call_without_handle self args kwargs w :
  ~ In "self" (dict_keys kwargs) ->
  _di_container w = None ->
  __call__ self args kwargs w = (Raised (RuntimeError not_populated), w) /\
  trace (snd (__call__ self args kwargs w)) = trace w /\
  external (snd (__call__ self args kwargs w)) = external w.
Proof.
  intros Hkw Hnone. rewrite (call_no_handle self args kwargs w Hkw Hnone).
  repeat split.
Qed.

(** C4.  A call of a wrapper with the handle set, whose arguments bind (no
    keyword is named [self]), asks the analyzer once, with the count
    [len(P) + 1] when a receiver is bound and [len(P)] when none is, and
    with the names of the supplied keyword arguments only; a call it
    delegates is a call of the wrapped callable with the receiver, when
    bound, ahead of [P]; and when the analysis succeeds and the resolver
    answers every request it does delegate, once: the wrapped callable is
    applied to those arguments in the state the resolver left, and what it
    returns or raises, and the state it leaves, are the wrapper's. *)
Theorem call_counts_receiver self args kwargs w o c :
  ~ In "self" (dict_keys kwargs) ->
  nth_error (objects w) self = Some o ->
  _di_container w = Some c ->
  exists evs,
    trace (snd (__call__ self args kwargs w)) = (trace w ++ evs)%list /\
    analyzed evs =
    [(_func o,
      Z.of_nat (List.length args) + (if is_not_none (_self o) then 1 else 0),
      dict_keys kwargs)] /\
    (forall func args' kw,
        In (func, args', kw) (delegated evs) ->
        func = _func o /\
        args' = match _self o with
                | Some receiver => Some receiver :: args
                | None => args
                end) /\
    (forall inj vs st1,
        injectables_of o args kwargs = inr inj ->
        Resolved c (external w) (map snd inj) vs st1 ->
        exists kw,
          delegated evs = [(_func o, delegate_args o args, kw)] /\
          fst (__call__ self args kwargs w) =
          match fst (apply (_func o) (delegate_args o args) kw st1) with
          | inl e => Raised e
          | inr v => Returned v
          end /\
          external (snd (__call__ self args kwargs w)) =
          snd (apply (_func o) (delegate_args o args) kw st1)).
Proof.
  intros Hkw Hlive Hc.
  assert (Hcount :
            Z.of_nat (List.length args) +
            (if is_not_none (_self o) then 1 else 0) =
            Z.of_nat (positional_count o args)).
  { unfold positional_count. destruct (_self o); simpl is_not_none; lia. }
  rewrite Hcount. fold (delegate_args o args).
  destruct (call_cases self args kwargs w o c Hkw Hlive Hc)
    as [(e & Hinj & Hrun)
       | [(inj & vs & st1 & Hinj & Hr & Hrun)
         | (inj & vs & asked & e & st1 & Hinj & Hf & Hrun)]];
    rewrite Hrun; simpl;
    eexists; (split; [reflexivity |]).
  - simpl. repeat split; try contradiction.
    intros inj vs st1 Hinj'. congruence.
  - simpl. rewrite analyzed_app, delegated_app, analyzed_agets, delegated_agets.
    simpl. split; [reflexivity |]. split.
    + intros func args' kw [E | []]. inversion E. now split.
    + intros inj' vs' st1' Hinj' Hr'.
      assert (inj' = inj) by congruence. subst inj'.
      destruct (Resolved_functional _ _ _ _ _ _ _ Hr Hr') as [-> ->].
      eexists. split; [reflexivity |]. split; [| reflexivity].
      now destruct (fst (apply _ _ _ _)).
  - simpl. rewrite analyzed_agets, delegated_agets. repeat split;
      try contradiction.
    intros inj' vs' st1' Hinj' Hr'.
    assert (inj' = inj) by congruence. subst inj'.
    exfalso. eapply resolution_exclusive; eassumption.
Qed.

(** C5.  With injection active, descriptor access on a wrapper with an
    instance returns a reference that was not in the store before, to a
    wrapper holding the same callable and the instance as receiver, the
    wrapper accessed staying as it was; access without an instance returns
    the reference of the wrapper accessed and changes nothing. *)
Theorem get_binds_instance self (instance : Obj) owner w o :
  di_disabled = false ->
  nth_error (objects w) self = Some o ->
  (exists r w',
      __get__ self (Some instance) owner w = (Returned (Wrapper r), w') /\
      nth_error (objects w) r = None /\
      r <> self /\
      nth_error (objects w') r =
      Some {| _func := _func o; _self := Some instance |} /\
      nth_error (objects w') self = Some o) /\
  __get__ self None owner w = (Returned (Wrapper self), w).
Proof.
  intros Hon Hlive. split; [| reflexivity].
  unfold __get__, bind, getattr. rewrite Hlive.
  unfold LazyInjecting. rewrite Hon.
  unfold bind, __init__, allocate, ret. simpl.
  eexists. eexists. split; [reflexivity |]. simpl. repeat split.
  - apply nth_error_None. lia.
  - intros E.
    assert (Hnone : nth_error (objects w) self = None)
      by (apply nth_error_None; lia).
    congruence.
  - rewrite nth_error_app2 by lia. now rewrite Nat.sub_diag.
  - now apply nth_error_grows.
Qed.

(** C6.  A call with the handle set, whose arguments bind (no keyword is
    named [self]) and whose analysis succeeded, goes one of two ways.  Either the resolver answers every request, and then the wrapped
    callable is called exactly once, with the supplied keyword arguments and
    the resolved values merged, and what that call returns or raises is what
    the wrapper returns or raises.  Or some request raises: the wrapper
    raises that very exception, the wrapped callable is not called, and the
    request that raised is the last one made (nothing is asked again, nothing
    is asked after it). *)
Theorem call_all_or_nothing self args kwargs w o c inj :
  ~ In "self" (dict_keys kwargs) ->
  nth_error (objects w) self = Some o ->
  _di_container w = Some c ->
  injectables_of o args kwargs = inr inj ->
  exists evs,
    trace (snd (__call__ self args kwargs w)) = (trace w ++ evs)%list /\
    ((exists vs st1,
         Resolved c (external w) (map snd inj) vs st1 /\
         let kw := dict_update (dict_update dict_empty kwargs)
                               (combine (dict_keys inj) vs) in
         let r := apply (_func o) (delegate_args o args) kw st1 in
         requested evs = map snd inj /\
         delegated evs = [(_func o, delegate_args o args, kw)] /\
         fst (__call__ self args kwargs w) =
         match fst r with
         | inl e => Raised e
         | inr v => Returned v
         end /\
         external (snd (__call__ self args kwargs w)) = snd r)
     \/
     (exists vs asked e st1,
         FirstFailure c (external w) (map snd inj) vs asked e st1 /\
         requested evs = asked /\
         asked = firstn (S (List.length vs)) (map snd inj) /\
         delegated evs = [] /\
         fst (__call__ self args kwargs w) = Raised e /\
         external (snd (__call__ self args kwargs w)) = st1)).
Proof.
  intros Hkw Hlive Hc Hinj.
  destruct (call_cases self args kwargs w o c Hkw Hlive Hc)
    as [(e & Hinj' & _)
       | [(inj' & vs & st1 & Hinj' & Hr & Hrun)
         | (inj' & vs & asked & e & st1 & Hinj' & Hf & Hrun)]];
    [congruence | |];
    assert (inj' = inj) by congruence; subst inj'; rewrite Hrun; simpl;
    eexists; (split; [reflexivity |]).
  - left. exists vs, st1. split; [assumption |]. simpl.
    rewrite requested_app, delegated_app, requested_agets, delegated_agets.
    simpl. rewrite app_nil_r. repeat split.
  - right. exists vs, asked, e, st1. split; [assumption |]. simpl.
    rewrite requested_agets, delegated_agets. repeat split.
    now apply FirstFailure_asked in Hf.
Qed.

(** C7.  In a call with the handle set and arguments that bind (no keyword
    is named [self]), of a wrapper around a callable whose signature
    [inspect] produces, the types requested from the
    resolver are the annotations of the eligible parameters in declaration
    order, each request made in the state the previous one left: all of
    them when every request is answered, and then the value answered for a
    parameter is what the delegated call receives under that parameter's
    name; those up to the request that raised otherwise. *)
Theorem resolution_order self args kwargs w o c (parameters : list Param) :
  ~ In "self" (dict_keys kwargs) ->
  nth_error (objects w) self = Some o ->
  _di_container w = Some c ->
  inspect_signature (_func o) = inr parameters ->
  NoDup (map (@name _ _) parameters) ->
  let chosen :=
      eligible_parameters parameters (positional_count o args)
                          (dict_keys kwargs) in
  map Some (annotations chosen) = map (@annotation _ _) chosen /\
  exists evs,
    trace (snd (__call__ self args kwargs w)) = (trace w ++ evs)%list /\
    ((exists vs st1,
         Resolved c (external w) (annotations chosen) vs st1 /\
         requested evs = annotations chosen /\
         exists kw,
           delegated evs = [(_func o, delegate_args o args, kw)] /\
           forall j p v,
             nth_error chosen j = Some p -> nth_error vs j = Some v ->
             dict_get kw (name p) = Some v)
     \/
     (exists vs asked e st1,
         FirstFailure c (external w) (annotations chosen) vs asked e st1 /\
         requested evs = asked /\
         asked = firstn (S (List.length vs)) (annotations chosen))).
Proof.
  intros Hkw Hlive Hc Hsig Hnd chosen.
  assert (Hinj : injectables_of o args kwargs = inr (entries chosen)).
  { unfold injectables_of.
    now apply find_injectable_kwargs_entries. }
  split.
  { unfold annotations. rewrite map_map.
    apply entries_values, eligible_annotated. }
  destruct (call_cases self args kwargs w o c Hkw Hlive Hc)
    as [(e & Hinj' & _)
       | [(inj' & vs & st1 & Hinj' & Hr & Hrun)
         | (inj' & vs & asked & e & st1 & Hinj' & Hf & Hrun)]];
    [congruence | |];
    assert (inj' = entries chosen) by congruence; subst inj'; rewrite Hrun;
    simpl; eexists; (split; [reflexivity |]).
  - left. exists vs, st1. split; [exact Hr |]. simpl.
    rewrite requested_app, delegated_app, requested_agets, delegated_agets.
    simpl. rewrite app_nil_r. split; [reflexivity |].
    eexists. split; [reflexivity |].
    intros j p v Hp Hv.
    apply stored_at with (j := j); [| | exact Hv].
    + unfold chosen. rewrite eligible_parameters_names.
      now apply eligible_parameters_NoDup.
    + unfold chosen. rewrite eligible_parameters_names.
      rewrite nth_error_map. fold chosen. now rewrite Hp.
  - right. exists vs, asked, e, st1. split; [exact Hf |]. simpl.
    rewrite requested_agets. split; [reflexivity |].
    now apply FirstFailure_asked in Hf.
Qed.

(** C9.  A wrapper in the store keeps its two slots through any call of any
    wrapper, any descriptor access and any construction, and the ambient
    handle is the same after each of them as before. *)
Theorem wrapper_state_is_never_mutated w r o :
  nth_error (objects w) r = Some o ->
  (forall self args kwargs,
      nth_error (objects (snd (__call__ self args kwargs w))) r = Some o /\
      _di_container (snd (__call__ self args kwargs w)) = _di_container w) /\
  (forall self instance owner,
      nth_error (objects (snd (__get__ self instance owner w))) r = Some o /\
      _di_container (snd (__get__ self instance owner w)) = _di_container w) /\
  (forall func self_,
      nth_error (objects (snd (LazyInjecting func self_ w))) r = Some o /\
      _di_container (snd (LazyInjecting func self_ w)) = _di_container w).
Proof.
  intros Hr. repeat split.
  - destruct (preserves_call self args kwargs w) as [Ho _]. now rewrite Ho.
  - now destruct (preserves_call self args kwargs w).
  - destruct (get_grows self instance owner w) as [more [Ho _]].
    rewrite Ho. now apply nth_error_grows.
  - now destruct (get_grows self instance owner w) as [more [_ Hc]].
  - destruct (LazyInjecting_grows func self_ w) as [more [Ho _]].
    rewrite Ho. now apply nth_error_grows.
  - now destruct (LazyInjecting_grows func self_ w) as [more [_ Hc]].
Qed.

(** When the resolver answers every request, the delegated call receives
    each answer under the name of the parameter it was requested for. *)
Lemma call_delivers self args kwargs w o c (parameters : list Param) vs st1 :
  ~ In "self" (dict_keys kwargs) ->
  nth_error (objects w) self = Some o ->
  _di_container w = Some c ->
  inspect_signature (_func o) = inr parameters ->
  NoDup (map (@name _ _) parameters) ->
  Resolved c (external w)
           (annotations
              (eligible_parameters parameters (positional_count o args)
                                   (dict_keys kwargs))) vs st1 ->
  exists evs kw,
    trace (snd (__call__ self args kwargs w)) = (trace w ++ evs)%list /\
    delegated evs = [(_func o, delegate_args o args, kw)] /\
    forall j p v,
      nth_error (eligible_parameters parameters (positional_count o args)
                                     (dict_keys kwargs)) j = Some p ->
      nth_error vs j = Some v ->
      dict_get kw (name p) = Some v.
Proof.
  intros Hkw Hlive Hc Hsig Hnd Hr.
  set (chosen := eligible_parameters parameters (positional_count o args)
                                     (dict_keys kwargs)) in *.
  assert (Hinj : injectables_of o args kwargs = inr (entries chosen)).
  { unfold injectables_of. now apply find_injectable_kwargs_entries. }
  rewrite (call_resolved self args kwargs w o c (entries chosen) vs st1
                         Hkw Hlive Hc Hinj Hr).
  simpl. eexists. eexists. split; [reflexivity |]. simpl.
  rewrite delegated_app, delegated_agets. simpl. split; [reflexivity |].
  intros j p v Hp Hv.
  apply stored_at with (j := j); [| | exact Hv].
  - unfold chosen. rewrite eligible_parameters_names.
    now apply eligible_parameters_NoDup.
  - unfold chosen. rewrite eligible_parameters_names.
    rewrite nth_error_map. fold chosen. now rewrite Hp.
Qed.

(** C10.  A variadic parameter (of the variable-positional or of the
    variable-keyword kind; such a parameter has no default) that carries an
    annotation is in the injectable set whenever it lies past the positional
    count and its name is not a supplied keyword; and a call of a wrapper
    whose arguments bind (no keyword is named [self]) and that resolves
    every request then hands the value resolved for it to the wrapped
    callable as a keyword argument under the parameter's name. *)
Theorem variadic_parameters_are_injected
        func (parameters : list Param) i p a :
  inspect_signature func = inr parameters ->
  NoDup (map (@name _ _) parameters) ->
  nth_error parameters i = Some p ->
  kind p = VAR_POSITIONAL \/ kind p = VAR_KEYWORD ->
  annotation p = Some a ->
  default p = None ->
  (forall (N : nat) K,
      (N <= i)%nat -> ~ In (name p) K ->
      exists m,
        find_injectable_kwargs func (Z.of_nat N) K = inr m /\
        dict_get m (name p) = Some a) /\
  (forall self args kwargs w o c vs st1,
      ~ In "self" (dict_keys kwargs) ->
      nth_error (objects w) self = Some o ->
      _di_container w = Some c ->
      _func o = func ->
      (positional_count o args <= i)%nat ->
      ~ In (name p) (dict_keys kwargs) ->
      Resolved c (external w)
               (annotations
                  (eligible_parameters parameters (positional_count o args)
                                       (dict_keys kwargs))) vs st1 ->
      exists evs kw j v,
        trace (snd (__call__ self args kwargs w)) = (trace w ++ evs)%list /\
        delegated evs = [(func, delegate_args o args, kw)] /\
        nth_error (annotations
                     (eligible_parameters parameters (positional_count o args)
                                          (dict_keys kwargs))) j = Some a /\
        nth_error vs j = Some v /\
        dict_get kw (name p) = Some v).
Proof.
  intros Hsig Hnd Hi Hkind Ha Hd.
  assert (Hchosen : forall (N : nat) K,
             (N <= i)%nat -> ~ In (name p) K ->
             In p (eligible_parameters parameters N K)).
  { intros N K Hle HK. apply filter_In. split.
    - apply In_skipn. now exists i.
    - apply eligible_iff. repeat split; try assumption; [congruence |].
      destruct Hkind as [E | E]; rewrite E; discriminate. }
  split.
  - intros N K Hle HK. eexists. split.
    + exact (find_injectable_kwargs_entries func parameters N K Hsig Hnd).
    + apply dict_get_in.
      * rewrite eligible_parameters_names.
        now apply eligible_parameters_NoDup.
      * apply In_entries. exists p. repeat split; auto.
  - intros self args kwargs w o c vs st1 Hbind Hlive Hc Hfunc Hle HK Hr.
    subst func.
    destruct (call_delivers self args kwargs w o c parameters vs st1
                            Hbind Hlive Hc Hsig Hnd Hr)
      as (evs & kw & Htrace & Hdel & Hkw).
    set (chosen := eligible_parameters parameters (positional_count o args)
                                       (dict_keys kwargs)) in *.
    assert (Hann : map Some (annotations chosen) = map (@annotation _ _) chosen).
    { unfold annotations. rewrite map_map.
      apply entries_values, eligible_annotated. }
    destruct (In_nth_error chosen p (Hchosen _ _ Hle HK)) as [j Hj].
    assert (Hja : nth_error (annotations chosen) j = Some a).
    { assert (E : nth_error (map Some (annotations chosen)) j = Some (Some a)).
      { rewrite Hann, nth_error_map, Hj. simpl. now rewrite Ha. }
      rewrite nth_error_map in E.
      destruct (nth_error (annotations chosen) j); simpl in E; congruence. }
    assert (Hjv : exists v, nth_error vs j = Some v).
    { destruct (nth_error vs j) as [v |] eqn:E; [now exists v |].
      apply nth_error_None in E.
      rewrite (Resolved_length _ _ _ _ _ Hr) in E.
      apply nth_error_None in E. congruence. }
    destruct Hjv as [v Hv].
    exists evs, kw, j, v. repeat split; try assumption.
    now apply (Hkw j p v).
Qed.

(** *** The load-time switch *)

Lemma lower_ascii_cases (c : ascii) :
  (lower_ascii c = "t"%char -> c = "t"%char \/ c = "T"%char) /\
  (lower_ascii c = "r"%char -> c = "r"%char \/ c = "R"%char) /\
  (lower_ascii c = "u"%char -> c = "u"%char \/ c = "U"%char) /\
  (lower_ascii c = "e"%char -> c = "e"%char \/ c = "E"%char).
Proof.
  destruct c as [[] [] [] [] [] [] [] []]; vm_compute;
    repeat split; intros E; try discriminate E; auto.
Qed.

Lemma lower_true_iff (v : string) : lower v = "true" <-> In v true_spellings.
Proof.
  split.
  - intros E.
    destruct v as [| c1 [| c2 [| c3 [| c4 [| c5 v]]]]]; simpl in E;
      try discriminate E.
    inversion E as [[E1 E2 E3 E4]].
    apply (proj1 (lower_ascii_cases c1)) in E1.
    apply (proj1 (proj2 (lower_ascii_cases c2))) in E2.
    apply (proj1 (proj2 (proj2 (lower_ascii_cases c3)))) in E3.
    apply (proj2 (proj2 (proj2 (lower_ascii_cases c4)))) in E4.
    destruct E1, E2, E3, E4; subst; simpl; auto 20.
  - intros Hin. simpl in Hin.
    repeat (destruct Hin as [<- | Hin]; [reflexivity |]). contradiction.
Qed.

(** C3.  The module disables injection exactly when the environment
    variable is set to one of the spellings of [true], whatever the case of
    its letters.  When it does, construction hands back the callable it was
    given and changes nothing, and calling what it handed back is calling
    that callable with the arguments as they are: no request to the
    resolver, no analysis, the ambient handle not even read.  For every
    other value, and when the variable is absent, construction creates a
    wrapper holding the callable and the receiver. *)
Theorem disablement_flag :
  (di_disabled = true <->
   exists v, LIGHTBULB_DI_DISABLED = Some v /\ In v true_spellings) /\
  (LIGHTBULB_DI_DISABLED = None -> di_disabled = false) /\
  (forall func self_ w,
      LazyInjecting func self_ w =
      if di_disabled
      then (Returned (Original func), w)
      else (Returned (Wrapper (List.length (objects w))),
            {| objects := (objects w ++ [{| _func := func; _self := self_ |}])%list;
               _di_container := _di_container w;
               external := external w;
               trace := trace w |})) /\
  (forall func args kwargs w,
      call_constructed (Original func) args kwargs w =
      (match fst (apply func args kwargs (external w)) with
       | inl e => Raised e
       | inr v => Returned v
       end,
       after w (snd (apply func args kwargs (external w)))
             [EvCall func args kwargs])).
Proof.
  split; [| split; [| split]].
  - unfold di_disabled. rewrite String.eqb_eq.
    destruct LIGHTBULB_DI_DISABLED as [v |].
    + rewrite lower_true_iff. split.
      * intros Hin. now exists v.
      * intros [v' [E Hin]]. now inversion E.
    + split; [discriminate | intros [v [E _]]; discriminate].
  - intros Habsent. unfold di_disabled. now rewrite Habsent.
  - intros func self_ w. unfold LazyInjecting. now destruct di_disabled.
  - intros func args kwargs w. unfold call_constructed, await_call. simpl.
    now destruct (apply func args kwargs (external w)).
Qed.

End WrapperClaims.

(** * Further properties of the analyzer and of the wrapper *)

Section AnalyzerMore.
Context {H : Host}.
Implicit Types (p : Param) (K : list string).

Lemma dict_set_keys {V : Type} (d : Dict V) k (v : V) k' :
  In k' (dict_keys (dict_set d k v)) <-> k' = k \/ In k' (dict_keys d).
Proof.
  induction d as [| [k0 v0] d IH]; simpl.
  - split; [intros [E | []]; now left | intros [E | []]; now left].
  - destruct (String.eqb_spec k0 k) as [-> | Hne]; simpl.
    + split; [intros [E | Hin]; auto | intros [E | [E | Hin]]; auto].
    + rewrite IH. tauto.
Qed.

Lemma dict_set_NoDup {V : Type} (d : Dict V) k (v : V) :
  NoDup (dict_keys d) -> NoDup (dict_keys (dict_set d k v)).
Proof.
  induction d as [| [k0 v0] d IH]; simpl; intros Hnd.
  - constructor; [intros [] | constructor].
  - inversion Hnd as [| ? ? Hfresh Hnd']; subst.
    destruct (String.eqb_spec k0 k) as [-> | Hne]; simpl.
    + now constructor.
    + constructor; [| now apply IH].
      intros Hin. apply dict_set_keys in Hin.
      destruct Hin as [E | Hin]; [congruence | contradiction].
Qed.

Lemma dict_set_In {V : Type} (d : Dict V) k (v : V) k' v' :
  In (k', v') (dict_set d k v) -> (k' = k /\ v' = v) \/ In (k', v') d.
Proof.
  induction d as [| [k0 v0] d IH]; simpl.
  - intros [E | []]. inversion E. now left.
  - destruct (String.eqb_spec k0 k) as [-> | Hne]; simpl.
    + intros [E | Hin]; [inversion E; now left | right; now right].
    + intros [E | Hin]; [right; now left |].
      destruct (IH Hin) as [E | Hin']; [now left | right; now right].
Qed.

(** The keys the loop leaves: those it started with and the names of the
    eligible parameters it went through. *)
Lemma collect_keys K (ps : list Param) :
  forall (acc : Dict Ann) k,
    In k (dict_keys (collect K ps acc)) <->
    In k (dict_keys acc) \/
    exists p, In p ps /\ eligible K p = true /\ name p = k.
Proof.
  induction ps as [| p ps IH]; intros acc k; simpl.
  - split; [now left | intros [Hin | (q & [] & _)]; assumption].
  - assert (Hskip :
              eligible K p = false ->
              (In k (dict_keys acc) \/
               (exists q, In q ps /\ eligible K q = true /\ name q = k)) <->
              (In k (dict_keys acc) \/
               (exists q, (p = q \/ In q ps) /\ eligible K q = true /\
                          name q = k))).
    { intros Hp. split.
      - intros [Hin | (q & Hq & He & Hn)]; [now left |].
        right. exists q. auto.
      - intros [Hin | (q & [<- | Hq] & He & Hn)]; [now left | congruence |].
        right. exists q. auto. }
    unfold eligible at 1 2 in Hskip.
    destruct (annotation p) as [a |] eqn:Ea.
    + destruct (passed_over K p) eqn:Ep; simpl in Hskip.
      * rewrite IH. now apply Hskip.
      * rewrite IH, dict_set_keys. split.
        -- intros [[E | Hin] | (q & Hq & He & Hn)].
           ++ right. exists p. repeat split; auto.
              unfold eligible. now rewrite Ea, Ep.
           ++ now left.
           ++ right. exists q. auto.
        -- intros [Hin | (q & [<- | Hq] & He & Hn)].
           ++ left. now right.
           ++ left. left. now symmetry.
           ++ right. exists q. auto.
    + rewrite IH. now apply Hskip.
Qed.

Lemma collect_NoDup K (ps : list Param) :
  forall acc : Dict Ann,
    NoDup (dict_keys acc) -> NoDup (dict_keys (collect K ps acc)).
Proof.
  induction ps as [| p ps IH]; intros acc Hnd; simpl; [assumption |].
  destruct (annotation p); [| now apply IH].
  destruct (passed_over K p); apply IH; [assumption |].
  now apply dict_set_NoDup.
Qed.

Lemma collect_In K (ps : list Param) :
  forall (acc : Dict Ann) k a,
    In (k, a) (collect K ps acc) ->
    In (k, a) acc \/
    exists p, In p ps /\ eligible K p = true /\ name p = k /\
              annotation p = Some a.
Proof.
  induction ps as [| p ps IH]; intros acc k a Hin; simpl in Hin.
  - now left.
  - assert (Hlater :
              (exists q, In q ps /\ eligible K q = true /\ name q = k /\
                         annotation q = Some a) ->
              exists q, In q (p :: ps) /\ eligible K q = true /\ name q = k /\
                        annotation q = Some a).
    { intros (q & Hq & Hrest). exists q. split; [now right | assumption]. }
    destruct (annotation p) as [a0 |] eqn:Ea.
    + destruct (passed_over K p) eqn:Ep.
      * destruct (IH _ _ _ Hin) as [Hacc | Hq]; [now left | right; auto].
      * destruct (IH _ _ _ Hin) as [Hacc | Hq]; [| right; auto].
        apply dict_set_In in Hacc. destruct Hacc as [[-> ->] | Hacc].
        -- right. exists p. repeat split; auto; [now left |].
           unfold eligible. now rewrite Ea, Ep.
        -- now left.
    + destruct (IH _ _ _ Hin) as [Hacc | Hq]; [now left | right; auto].
Qed.

Lemma collect_nothing K (ps : list Param) (acc : Dict Ann) :
  (forall p, In p ps -> eligible K p = false) -> collect K ps acc = acc.
Proof.
  induction ps as [| p ps IH]; intros Hnone; simpl; [reflexivity |].
  assert (Hp : eligible K p = false) by (apply Hnone; now left).
  unfold eligible in Hp.
  destruct (annotation p).
  - apply negb_false_iff in Hp. rewrite Hp. apply IH.
    intros q Hq. apply Hnone. now right.
  - apply IH. intros q Hq. apply Hnone. now right.
Qed.

Lemma eligible_fewer_names K K' p :
  incl K K' -> eligible K' p = true -> eligible K p = true.
Proof.
  intros Hincl He. apply eligible_iff in He. apply eligible_iff.
  destruct He as (Ha & Hd & Hk & HK). repeat split; auto.
Qed.

(** X1.  Whatever the signature (duplicated names included) and whatever
    the integer passed as positional count, the mapping returned has
    pairwise distinct keys, and each of its entries is the name and the
    annotation of a parameter of the slice that has no default, is not
    positional-only and whose name was not supplied as a keyword. *)
Theorem injectable_entries_are_eligible
        func (parameters : list Param) (N : Z) K m :
  inspect_signature func = inr parameters ->
  find_injectable_kwargs func N K = inr m ->
  NoDup (dict_keys m) /\
  forall k a,
    In (k, a) m ->
    exists p,
      In p (slice_from parameters N) /\ name p = k /\
      annotation p = Some a /\ default p = None /\
      kind p <> POSITIONAL_ONLY /\ ~ In k K.
Proof.
  intros Hsig Hm. unfold find_injectable_kwargs in Hm. rewrite Hsig in Hm.
  inversion Hm; subst m. split.
  - apply collect_NoDup. constructor.
  - intros k a Hin. apply collect_In in Hin.
    destruct Hin as [[] | (p & Hp & He & Hn & Ha)].
    apply eligible_iff in He. destruct He as (_ & Hd & Hk & HK).
    exists p. subst k. repeat split; assumption.
Qed.

(** X2.  On a signature with distinct names the mapping is the
    comprehension over the parameters past the count: it lists the eligible
    ones, name and annotation, in declaration order. *)
Theorem injectables_in_declaration_order
        func (parameters : list Param) (N : nat) K :
  inspect_signature func = inr parameters ->
  NoDup (map (@name _ _) parameters) ->
  exists m,
    find_injectable_kwargs func (Z.of_nat N) K = inr m /\
    dict_keys m = map (@name _ _) (filter (eligible K) (skipn N parameters)) /\
    map (fun kv => Some (snd kv)) m =
    map (@annotation _ _) (filter (eligible K) (skipn N parameters)).
Proof.
  intros Hsig Hnd. eexists. split; [| split].
  - exact (find_injectable_kwargs_entries func parameters N K Hsig Hnd).
  - apply eligible_parameters_names.
  - apply entries_values, eligible_annotated.
Qed.

(** X3.  A negative count [-k] is a slice from the end: the analyzer looks
    at the last [k] parameters only (at all of them when there are fewer
    than [k]). *)
Theorem negative_count_slices_from_end
        func (parameters : list Param) (k : nat) K :
  inspect_signature func = inr parameters ->
  (0 < k)%nat ->
  find_injectable_kwargs func (- Z.of_nat k) K =
  find_injectable_kwargs func (Z.of_nat (List.length parameters - k)) K.
Proof.
  intros Hsig Hk. unfold find_injectable_kwargs. rewrite Hsig.
  rewrite slice_from_count. unfold slice_from.
  destruct (Z.ltb_spec (- Z.of_nat k) 0) as [_ | Hge]; [| lia].
  do 3 f_equal. lia.
Qed.

(** X4.  When at least as many positional arguments were supplied as the
    signature has parameters, nothing is injectable. *)
Theorem all_positionals_supplied
        func (parameters : list Param) (N : nat) K :
  inspect_signature func = inr parameters ->
  (List.length parameters <= N)%nat ->
  find_injectable_kwargs func (Z.of_nat N) K = inr dict_empty.
Proof.
  intros Hsig Hle. unfold find_injectable_kwargs. rewrite Hsig.
  rewrite slice_from_count, skipn_all2 by assumption. reflexivity.
Qed.

(** X5.  Supplying more never injects more: with a larger positional count
    and a larger set of keyword names, every entry of the mapping obtained
    is an entry of the mapping obtained before. *)
Theorem more_supplied_fewer_injected
        func (parameters : list Param) (N N' : nat) K K' :
  inspect_signature func = inr parameters ->
  NoDup (map (@name _ _) parameters) ->
  (N <= N')%nat ->
  incl K K' ->
  exists m m',
    find_injectable_kwargs func (Z.of_nat N) K = inr m /\
    find_injectable_kwargs func (Z.of_nat N') K' = inr m' /\
    incl m' m.
Proof.
  intros Hsig Hnd Hle Hincl. eexists. eexists. split; [| split].
  - exact (find_injectable_kwargs_entries func parameters N K Hsig Hnd).
  - exact (find_injectable_kwargs_entries func parameters N' K' Hsig Hnd).
  - intros [k a] Hin. apply In_entries in Hin.
    destruct Hin as (p & Hp & Hn & Ha). apply In_entries. exists p.
    repeat split; try assumption.
    apply filter_In in Hp. destruct Hp as [Hp He]. apply filter_In. split.
    + apply In_skipn in Hp. destruct Hp as (j & Hj & Hnth).
      apply In_skipn. exists j. split; [lia | assumption].
    + now apply eligible_fewer_names with (K' := K').
Qed.

(** X6.  Once the names of the injectable parameters are supplied as
    keywords too, nothing is left to inject. *)
Theorem injected_names_leave_nothing func (N : Z) K m :
  find_injectable_kwargs func N K = inr m ->
  find_injectable_kwargs func N (K ++ dict_keys m) = inr dict_empty.
Proof.
  unfold find_injectable_kwargs.
  destruct (inspect_signature func) as [e | parameters]; [discriminate |].
  intros Hm. inversion Hm as [Em]. f_equal. rewrite Em.
  apply collect_nothing. intros p Hp.
  destruct (eligible (K ++ dict_keys m) p) eqn:He; [| reflexivity].
  exfalso.
  assert (HK : eligible K p = true).
  { apply eligible_fewer_names with (K' := (K ++ dict_keys m)%list);
      [| assumption].
    intros k Hk. apply in_or_app. now left. }
  apply eligible_iff in He. destruct He as (_ & _ & _ & Hnot).
  apply Hnot. apply in_or_app. right. rewrite <- Em.
  apply collect_keys. right. exists p. auto.
Qed.

End AnalyzerMore.

Section WrapperMore.
Context {H : Host}.

Lemma find_injectable_kwargs_keys func (N : Z) K m :
  find_injectable_kwargs func N K = inr m ->
  NoDup (dict_keys m) /\ forall k, In k (dict_keys m) -> ~ In k K.
Proof.
  unfold find_injectable_kwargs.
  destruct (inspect_signature func) as [e | parameters]; [discriminate |].
  intros Hm. inversion Hm; subst m. split.
  - apply collect_NoDup. constructor.
  - intros k Hk. apply collect_keys in Hk.
    destruct Hk as [[] | (p & _ & He & <-)].
    now apply eligible_iff in He.
Qed.

Lemma combine_keys {V : Type} (names : list string) :
  forall vs : list V,
    List.length vs = List.length names ->
    dict_keys (combine names vs) = names.
Proof.
  induction names as [| n names IH]; intros [| v vs] Hlen; simpl in *;
    try discriminate; [reflexivity |].
  f_equal. apply IH. now inversion Hlen.
Qed.

Lemma dict_get_app_l {V : Type} (d d' : Dict V) k :
  In k (dict_keys d) -> dict_get (d ++ d')%list k = dict_get d k.
Proof.
  induction d as [| [k0 v0] d IH]; simpl; intros Hin; [contradiction |].
  destruct (String.eqb_spec k0 k) as [_ | Hne]; [reflexivity |].
  apply IH. destruct Hin; [contradiction | assumption].
Qed.

(** The working map once every request was answered: the caller's keyword
    arguments, then the injected ones. *)
Lemma merged_kwargs (kwargs : Dict Any) (inj : Dict Ann) (vs : list Any) func N :
  NoDup (dict_keys kwargs) ->
  find_injectable_kwargs func N (dict_keys kwargs) = inr inj ->
  List.length vs = List.length inj ->
  dict_update (dict_update dict_empty kwargs) (combine (dict_keys inj) vs) =
  (kwargs ++ combine (dict_keys inj) vs)%list.
Proof.
  intros Hnd Hinj Hlen.
  destruct (find_injectable_kwargs_keys func N (dict_keys kwargs) inj Hinj)
    as [Hkeys Hfresh].
  rewrite dict_update_copy by assumption.
  apply dict_update_fresh.
  rewrite combine_keys by (unfold dict_keys; now rewrite length_map).
  apply NoDup_app; try assumption.
  intros k Hk Hin. now apply (Hfresh k).
Qed.

(** The shape of any call with the handle set whose arguments bind. *)
Lemma call_shape self args kwargs w o c :
  ~ In "self" (dict_keys kwargs) ->
  nth_error (objects w) self = Some o ->
  _di_container w = Some c ->
  exists evs,
    trace (snd (__call__ self args kwargs w)) = (trace w ++ evs)%list /\
    analyzed evs =
    [(_func o, Z.of_nat (positional_count o args), dict_keys kwargs)] /\
    (forall func args' kw,
        In (func, args', kw) (delegated evs) ->
        func = _func o /\ args' = delegate_args o args) /\
    (forall inj vs st1,
        injectables_of o args kwargs = inr inj ->
        Resolved c (external w) (map snd inj) vs st1 ->
        exists kw,
          delegated evs = [(_func o, delegate_args o args, kw)] /\
          fst (__call__ self args kwargs w) =
          match fst (apply (_func o) (delegate_args o args) kw st1) with
          | inl e => Raised e
          | inr v => Returned v
          end /\
          external (snd (__call__ self args kwargs w)) =
          snd (apply (_func o) (delegate_args o args) kw st1)).
Proof.
  intros Hkw Hlive Hc.
  destruct (call_cases self args kwargs w o c Hkw Hlive Hc)
    as [(e & Hinj & Hrun)
       | [(inj & vs & st1 & Hinj & Hr & Hrun)
         | (inj & vs & asked & e & st1 & Hinj & Hf & Hrun)]];
    rewrite Hrun; simpl; eexists; (split; [reflexivity |]); simpl.
  - split; [reflexivity |]. split; [intros ? ? ? [] |].
    intros inj vs st1 Hinj'. congruence.
  - rewrite analyzed_app, delegated_app, analyzed_agets, delegated_agets.
    simpl. split; [reflexivity |]. split.
    + intros func args' kw [E | []]. inversion E. now split.
    + intros inj' vs' st1' Hinj' Hr'.
      assert (inj' = inj) by congruence. subst inj'.
      destruct (Resolved_functional _ _ _ _ _ _ _ Hr Hr') as [-> ->].
      eexists. split; [reflexivity |]. split; [| reflexivity].
      now destruct (fst (apply _ _ _ _)).
  - rewrite analyzed_agets, delegated_agets.
    split; [reflexivity |]. split; [intros ? ? ? [] |].
    intros inj' vs' st1' Hinj' Hr'.
    assert (inj' = inj) by congruence. subst inj'.
    exfalso. eapply resolution_exclusive; eassumption.
Qed.

(** X7.  When the signature of the wrapped callable cannot be produced, a
    call with the handle set, whose arguments bind (no keyword is named
    [self]), raises the error of the inspection: the wrapper makes no
    request to the resolver and does not call the callable. *)
Theorem call_with_unreadable_signature self args kwargs w o c e :
  ~ In "self" (dict_keys kwargs) ->
  nth_error (objects w) self = Some o ->
  _di_container w = Some c ->
  inspect_signature (_func o) = inl e ->
  fst (__call__ self args kwargs w) = Raised e /\
  exists evs,
    trace (snd (__call__ self args kwargs w)) = (trace w ++ evs)%list /\
    requested evs = [] /\ delegated evs = [].
Proof.
  intros Hkw Hlive Hc Hsig.
  assert (Hinj : injectables_of o args kwargs = inl e).
  { unfold injectables_of, find_injectable_kwargs. now rewrite Hsig. }
  rewrite (call_analysis_raises self args kwargs w o c e Hkw Hlive Hc Hinj).
  simpl. split; [reflexivity |].
  eexists. split; [reflexivity |]. now split.
Qed.

(** X8.  When the arguments bind (no keyword is named [self]) and every
    request is answered, the wrapped callable receives the caller's keyword
    arguments first, in the caller's order and with the
    caller's values, followed by the injected ones in the order of the
    injectable set: no keyword the caller passed is replaced. *)
Theorem delegated_kwargs_are_merged self args kwargs w o c inj vs st1 :
  ~ In "self" (dict_keys kwargs) ->
  nth_error (objects w) self = Some o ->
  _di_container w = Some c ->
  NoDup (dict_keys kwargs) ->
  injectables_of o args kwargs = inr inj ->
  Resolved c (external w) (map snd inj) vs st1 ->
  exists evs,
    trace (snd (__call__ self args kwargs w)) = (trace w ++ evs)%list /\
    delegated evs =
    [(_func o, delegate_args o args,
      (kwargs ++ combine (dict_keys inj) vs)%list)] /\
    forall k,
      In k (dict_keys kwargs) ->
      dict_get (kwargs ++ combine (dict_keys inj) vs)%list k =
      dict_get kwargs k.
Proof.
  intros Hkw Hlive Hc Hnd Hinj Hr.
  rewrite (call_resolved self args kwargs w o c inj vs st1
                         Hkw Hlive Hc Hinj Hr).
  simpl. eexists. split; [reflexivity |]. simpl.
  rewrite delegated_app, delegated_agets. simpl. split.
  - rewrite (merged_kwargs kwargs inj vs (_func o)
                           (Z.of_nat (positional_count o args)) Hnd Hinj);
      [reflexivity |].
    rewrite (Resolved_length _ _ _ _ _ Hr). apply length_map.
  - intros k Hk. now apply dict_get_app_l.
Qed.

(** X9.  When the arguments bind (no keyword is named [self]) and nothing
    is injectable, the wrapper is transparent: the
    resolver is not asked, and the wrapped callable is called once with the
    receiver, if any, ahead of the positional arguments and with the keyword
    arguments as the caller gave them; its outcome is the wrapper's. *)
Theorem call_with_nothing_to_inject self args kwargs w o c :
  ~ In "self" (dict_keys kwargs) ->
  nth_error (objects w) self = Some o ->
  _di_container w = Some c ->
  NoDup (dict_keys kwargs) ->
  injectables_of o args kwargs = inr dict_empty ->
  __call__ self args kwargs w =
  (match fst (apply (_func o) (delegate_args o args) kwargs (external w)) with
   | inl e => Raised e
   | inr v => Returned v
   end,
   after w (snd (apply (_func o) (delegate_args o args) kwargs (external w)))
         [analysis_of o args kwargs;
          EvCall (_func o) (delegate_args o args) kwargs]).
Proof.
  intros Hkw Hlive Hc Hnd Hinj.
  rewrite (call_resolved self args kwargs w o c dict_empty [] (external w)
                         Hkw Hlive Hc Hinj (Resolved_nil c (external w))).
  assert (E : dict_update (dict_update dict_empty kwargs)
                          (combine (dict_keys (@dict_empty Ann)) (@nil Any)) =
              kwargs) by exact (dict_update_copy kwargs Hnd).
  cbv zeta. rewrite E.
  now destruct (apply (_func o) (delegate_args o args) kwargs (external w)).
Qed.

(** X10.  A wrapper obtained by descriptor access on an instance, when
    called with arguments that bind (no keyword is named [self]), counts the
    instance as a positional argument for the analysis and delegates to the
    same callable only, the instance first; when the analysis succeeds and
    every request is answered, that callable is applied to those arguments
    and its outcome and final state are the call's. *)
Theorem get_then_call self (instance : Obj) owner args kwargs w o c :
  di_disabled = false ->
  ~ In "self" (dict_keys kwargs) ->
  nth_error (objects w) self = Some o ->
  _di_container w = Some c ->
  exists r w',
    __get__ self (Some instance) owner w = (Returned (Wrapper r), w') /\
    exists evs,
      trace (snd (__call__ r args kwargs w')) = (trace w ++ evs)%list /\
      analyzed evs =
      [(_func o, Z.of_nat (List.length args) + 1, dict_keys kwargs)] /\
      (forall func args' kw,
          In (func, args', kw) (delegated evs) ->
          func = _func o /\ args' = Some instance :: args) /\
      (forall inj vs st1,
          find_injectable_kwargs (_func o)
                                 (Z.of_nat (List.length args) + 1)
                                 (dict_keys kwargs) = inr inj ->
          Resolved c (external w) (map snd inj) vs st1 ->
          exists kw,
            delegated evs = [(_func o, Some instance :: args, kw)] /\
            fst (__call__ r args kwargs w') =
            match fst (apply (_func o) (Some instance :: args) kw st1) with
            | inl e => Raised e
            | inr v => Returned v
            end /\
            external (snd (__call__ r args kwargs w')) =
            snd (apply (_func o) (Some instance :: args) kw st1)).
Proof.
  intros Hon Hkw Hlive Hc.
  unfold __get__, bind, getattr. rewrite Hlive.
  unfold LazyInjecting. rewrite Hon.
  unfold bind, __init__, allocate, ret. simpl.
  eexists. eexists. split; [reflexivity |].
  assert (Hcount : Z.of_nat (List.length args) + 1 =
                   Z.of_nat (S (List.length args))) by lia.
  rewrite Hcount.
  match goal with
  | |- context [__call__ ?r args kwargs ?w'] =>
      destruct (call_shape r args kwargs w'
                           {| _func := _func o; _self := Some instance |} c)
        as (evs & Htrace & Han & Hdel & Happ)
  end.
  - exact Hkw.
  - simpl. rewrite nth_error_app2 by lia. now rewrite Nat.sub_diag.
  - exact Hc.
  - exists evs. split; [exact Htrace |]. split; [exact Han |].
    split; [exact Hdel | exact Happ].
Qed.

(** X11.  Descriptor access is not memoised: two accesses on the same
    instance give two different wrapper objects, each holding the same
    callable and the same receiver. *)
Theorem get_is_not_memoised self (instance : Obj) owner w o :
  di_disabled = false ->
  nth_error (objects w) self = Some o ->
  exists r1 w1 r2 w2,
    __get__ self (Some instance) owner w = (Returned (Wrapper r1), w1) /\
    __get__ self (Some instance) owner w1 = (Returned (Wrapper r2), w2) /\
    r1 <> r2 /\
    nth_error (objects w2) r1 =
    Some {| _func := _func o; _self := Some instance |} /\
    nth_error (objects w2) r2 =
    Some {| _func := _func o; _self := Some instance |}.
Proof.
  intros Hon Hlive.
  assert (Hget : forall w0,
             nth_error (objects w0) self = Some o ->
             __get__ self (Some instance) owner w0 =
             (Returned (Wrapper (List.length (objects w0))),
              {| objects :=
                   (objects w0 ++
                    [{| _func := _func o; _self := Some instance |}])%list;
                 _di_container := _di_container w0;
                 external := external w0;
                 trace := trace w0 |})).
  { intros w0 Hw0. unfold __get__, bind, getattr. rewrite Hw0.
    unfold LazyInjecting. rewrite Hon. reflexivity. }
  eexists. eexists. eexists. eexists.
  split; [apply Hget; exact Hlive |].
  split; [apply Hget; simpl; now apply nth_error_grows |].
  simpl. rewrite length_app. simpl. repeat split.
  - lia.
  - apply nth_error_grows. rewrite nth_error_app2 by lia.
    now rewrite Nat.sub_diag.
  - rewrite nth_error_app2 by (rewrite length_app; simpl; lia).
    rewrite length_app. simpl.
    now replace (List.length (objects w) + 1 - (List.length (objects w) + 1))%nat
      with 0%nat by lia.
Qed.

(** X12.  What the constructor stores is what a call uses: with injection
    active, calling the wrapper just constructed from a callable and a
    receiver, with arguments that bind (no keyword is named [self]), asks
    for the analysis of that callable, counting the receiver when it is not
    [None], and delegates to that callable only, the receiver first; when
    the analysis succeeds and every request is answered, that callable is
    applied to those arguments and its outcome and final state are the
    call's. *)
Theorem construct_then_call func (self_ : Any) args kwargs w c :
  di_disabled = false ->
  ~ In "self" (dict_keys kwargs) ->
  _di_container w = Some c ->
  exists r w',
    LazyInjecting func self_ w = (Returned (Wrapper r), w') /\
    nth_error (objects w) r = None /\
    exists evs,
      trace (snd (__call__ r args kwargs w')) = (trace w ++ evs)%list /\
      analyzed evs =
      [(func,
        Z.of_nat (List.length args) + (if is_not_none self_ then 1 else 0),
        dict_keys kwargs)] /\
      (forall func' args' kw,
          In (func', args', kw) (delegated evs) ->
          func' = func /\
          args' = match self_ with
                  | Some receiver => Some receiver :: args
                  | None => args
                  end) /\
      (forall inj vs st1,
          find_injectable_kwargs
            func
            (Z.of_nat (List.length args) +
             (if is_not_none self_ then 1 else 0))
            (dict_keys kwargs) = inr inj ->
          Resolved c (external w) (map snd inj) vs st1 ->
          exists kw,
            delegated evs =
            [(func,
              match self_ with
              | Some receiver => Some receiver :: args
              | None => args
              end, kw)] /\
            fst (__call__ r args kwargs w') =
            match fst (apply func
                             match self_ with
                             | Some receiver => Some receiver :: args
                             | None => args
                             end kw st1) with
            | inl e => Raised e
            | inr v => Returned v
            end /\
            external (snd (__call__ r args kwargs w')) =
            snd (apply func
                       match self_ with
                       | Some receiver => Some receiver :: args
                       | None => args
                       end kw st1)).
Proof.
  intros Hon Hkw Hc. unfold LazyInjecting. rewrite Hon.
  unfold bind, __init__, allocate, ret. simpl.
  eexists. eexists. split; [reflexivity |].
  split; [apply nth_error_None; lia |].
  assert (Hcount :
            Z.of_nat (List.length args) +
            (if is_not_none self_ then 1 else 0) =
            Z.of_nat (positional_count {| _func := func; _self := self_ |}
                                       args)).
  { unfold positional_count. simpl. destruct self_; simpl; lia. }
  rewrite Hcount.
  match goal with
  | |- context [__call__ ?r args kwargs ?w'] =>
      destruct (call_shape r args kwargs w'
                           {| _func := func; _self := self_ |} c)
        as (evs & Htrace & Han & Hdel & Happ)
  end.
  - exact Hkw.
  - simpl. rewrite nth_error_app2 by lia. now rewrite Nat.sub_diag.
  - exact Hc.
  - exists evs. split; [exact Htrace |]. split; [exact Han |].
    split; [exact Hdel | exact Happ].
Qed.

(** X13.  A wrapper bound to a receiver behaves as the unbound wrapper of
    the same callable called with the receiver as first positional
    argument: same outcome, same requests, same delegated call, same final
    state. *)
Theorem bound_call_is_receiver_first
        self self' args kwargs w o o' (receiver : Obj) :
  nth_error (objects w) self = Some o ->
  nth_error (objects w) self' = Some o' ->
  _self o = Some receiver ->
  _self o' = None ->
  _func o' = _func o ->
  __call__ self args kwargs w = __call__ self' (Some receiver :: args) kwargs w.
Proof.
  intros Hlive Hlive' Hbound Hunbound Hfunc.
  destruct (in_dec string_dec "self" (dict_keys kwargs)) as [Hself | Hkw];
    [now rewrite !call_self_keyword by assumption |].
  destruct (_di_container w) as [c |] eqn:Hc.
  - assert (Hinj : injectables_of o' (Some receiver :: args) kwargs =
                   injectables_of o args kwargs).
    { unfold injectables_of, positional_count.
      now rewrite Hfunc, Hbound, Hunbound. }
    assert (Han : analysis_of o' (Some receiver :: args) kwargs =
                  analysis_of o args kwargs).
    { unfold analysis_of, positional_count.
      now rewrite Hfunc, Hbound, Hunbound. }
    assert (Hargs : delegate_args o' (Some receiver :: args) =
                    delegate_args o args).
    { unfold delegate_args. now rewrite Hbound, Hunbound. }
    destruct (call_cases self args kwargs w o c Hkw Hlive Hc)
      as [(e & Hi & Hrun)
         | [(inj & vs & st1 & Hi & Hr & Hrun)
           | (inj & vs & asked & e & st1 & Hi & Hf & Hrun)]];
      rewrite Hrun; rewrite <- Hinj in Hi; symmetry.
    + rewrite (call_analysis_raises self' (Some receiver :: args) kwargs w
                                    o' c e Hkw Hlive' Hc Hi).
      now rewrite Han.
    + rewrite (call_resolved self' (Some receiver :: args) kwargs w o' c
                             inj vs st1 Hkw Hlive' Hc Hi Hr).
      now rewrite Han, Hargs, Hfunc.
    + rewrite (call_first_failure self' (Some receiver :: args) kwargs w o' c
                                  inj vs asked e st1 Hkw Hlive' Hc Hi Hf).
      now rewrite Han.
  - now rewrite !call_no_handle by assumption.
Qed.

End WrapperMore.

(** * The statements at work on the concrete host *)

#[local] Existing Instance Demo.enabled.

(** [handler(1)]: [a] is bound positionally, [b] has a default, [c] is
    injected. *)
Example handler_one_argument :
  find_injectable_kwargs "handler" 1 [] = inr [("c", "Widget")].
Proof. reflexivity. Qed.

(** [handler(1, c=mine)]: nothing is left to inject. *)
Example handler_explicit_widget :
  find_injectable_kwargs "handler" 1 ["c"] = inr [].
Proof. reflexivity. Qed.

(** A negative count is a Python slice from the end: the last parameter
    alone is looked at. *)
Example handler_negative_count :
  find_injectable_kwargs "handler" (-1) [] = inr [("c", "Widget")] /\
  find_injectable_kwargs "method" (-1) [] = inr [("db", "Database")].
Proof. split; reflexivity. Qed.

(** A signature that cannot be produced: the error is the analyzer's. *)
Example unknown_callable :
  find_injectable_kwargs "nowhere" 0 [] = inl (Other "NameError").
Proof. reflexivity. Qed.

(** [handler(1)] through its wrapper: one request, one delegated call. *)
Example handler_call :
  __call__ 1%nat [Some "1"] [] Demo.ready =
  (Returned (Some "done"),
   {| objects := objects Demo.ready;
      _di_container := Some 7%nat;
      external := ["aget Widget"; "ran handler"];
      trace := [ EvAnalyze "handler" 1 [];
                 EvAget 7%nat "Widget";
                 EvCall "handler" [Some "1"] [("c", Some "<Widget>")] ] |}).
Proof. reflexivity. Qed.

(** [handler(1, c=mine)] through its wrapper: the explicit value goes
    through, the resolver is not asked. *)
Example handler_call_explicit :
  __call__ 1%nat [Some "1"] [("c", Some "mine")] Demo.ready =
  (Returned (Some "done"),
   {| objects := objects Demo.ready;
      _di_container := Some 7%nat;
      external := ["ran handler"];
      trace := [ EvAnalyze "handler" 1 ["c"];
                 EvCall "handler" [Some "1"] [("c", Some "mine")] ] |}).
Proof. reflexivity. Qed.

(** The bound method: the receiver counts as a positional argument and
    comes first in the delegated call. *)
Example method_call :
  __call__ 0%nat [Some "1"] [] Demo.ready =
  (Returned (Some "done"),
   {| objects := objects Demo.ready;
      _di_container := Some 7%nat;
      external := ["aget Service"; "aget Database"; "ran method"];
      trace := [ EvAnalyze "method" 2 [];
                 EvAget 7%nat "Service";
                 EvAget 7%nat "Database";
                 EvCall "method" [Some "me"; Some "1"]
                        [("svc", Some "<Service>");
                         ("db", Some "<Database>")] ] |}).
Proof. reflexivity. Qed.

(** The first request raises: [Widget] is never requested and the callable
    never runs. *)
Example needy_call :
  __call__ 2%nat [] [] Demo.ready =
  (Raised (Other "ServiceNotFoundError"),
   {| objects := objects Demo.ready;
      _di_container := Some 7%nat;
      external := ["aget Missing"];
      trace := [ EvAnalyze "needy" 0 []; EvAget 7%nat "Missing" ] |}).
Proof. reflexivity. Qed.

(** With [LIGHTBULB_DI_DISABLED=True] the constructor is the identity;
    with [LIGHTBULB_DI_DISABLED=yes] it is not. *)
Example disabled_construction :
  @di_disabled Demo.disabled = true /\
  @di_disabled (Demo.host (Some "yes")) = false /\
  forall w, @LazyInjecting Demo.disabled "handler" None w =
            (Returned (Original ("handler" : @Callable Demo.disabled)), w).
Proof. repeat split. Qed.

(** Keyword arguments with no [self] among them. *)
Lemma no_keywords_bind :
  ~ In "self" (dict_keys (@nil (string * option string))).
Proof. intros []. Defined.

Lemma keyword_b_binds : ~ In "self" (dict_keys [("b", Some "y")]).
Proof. intros [E | []]. discriminate E. Defined.

Lemma keyword_c_binds : ~ In "self" (dict_keys [("c", Some "mine")]).
Proof. intros [E | []]. discriminate E. Defined.

(** A keyword named [self] does not bind: the call raises before its body
    starts, whatever the handle. *)
Example self_keyword_call :
  __call__ 0%nat [Some "1"] [("self", Some "other")] Demo.ready =
  (Raised (TypeError multiple_values), Demo.ready) /\
  __call__ 0%nat [Some "1"] [("self", Some "other")] Demo.cold =
  (Raised (TypeError multiple_values), Demo.cold).
Proof. split; reflexivity. Qed.

Ltac distinct_names :=
  repeat (constructor; [simpl; intuition discriminate |]); constructor.

Lemma handler_names_distinct :
  NoDup (map (@name _ _) Demo.handler_parameters).
Proof. distinct_names. Defined.

Lemma method_names_distinct :
  NoDup (map (@name _ _) Demo.method_parameters).
Proof. distinct_names. Defined.

Lemma variadic_names_distinct :
  NoDup (map (@name _ _) Demo.variadic_parameters).
Proof. distinct_names. Defined.

(** The handler called with one positional argument and no keyword. *)
Lemma find_injectable_kwargs_iff_witness :
  (inspect_signature "handler" = inr Demo.handler_parameters /\
   NoDup (map (@name _ _) Demo.handler_parameters)) /\
  exists m,
    find_injectable_kwargs "handler" (Z.of_nat 1) [] = inr m /\
    (forall i p,
        nth_error Demo.handler_parameters i = Some p ->
        (In (name p) (dict_keys m) <->
         (1 <= i)%nat /\ annotation p <> None /\ default p = None /\
         kind p <> POSITIONAL_ONLY /\ ~ In (name p) []) /\
        (In (name p) (dict_keys m) -> dict_get m (name p) = annotation p)) /\
    (forall k, In k (dict_keys m) ->
               exists p, In p Demo.handler_parameters /\ name p = k).
Proof.
  split; [split; [reflexivity | exact handler_names_distinct] |].
  exact (find_injectable_kwargs_iff "handler" Demo.handler_parameters 1 []
                                    eq_refl handler_names_distinct).
Defined.


(** The two inspections of [fresh] differ in the annotation's value
    only. *)
Example fresh_inspections_same_shape :
  exists ps ps',
    fst (Demo.reevaluate "fresh" []) = inr ps /\
    fst (Demo.reevaluate "fresh" ["make()"]) = inr ps' /\
    Forall2 same_but_annotation_value ps ps'.
Proof.
  eexists. eexists. split; [reflexivity |]. split; [reflexivity |].
  constructor; [| constructor].
  repeat split; intros E; discriminate E.
Qed.


(** The bound method called outside every resolver scope. *)
Lemma call_without_handle_witness :
  (~ In "self" (dict_keys (@nil (string * option string))) /\
   _di_container Demo.cold = None) /\
  __call__ 0%nat [Some "1"] [] Demo.cold =
  (Raised (RuntimeError not_populated), Demo.cold) /\
  trace (snd (__call__ 0%nat [Some "1"] [] Demo.cold)) = trace Demo.cold /\
  external (snd (__call__ 0%nat [Some "1"] [] Demo.cold)) =
  external Demo.cold.
Proof.
  split; [split; [exact no_keywords_bind | reflexivity] |].
  exact (call_without_handle 0%nat [Some "1"] [] Demo.cold
                             no_keywords_bind eq_refl).
Defined.

(** The bound method called with one visible positional argument. *)
Lemma call_counts_receiver_witness :
  (~ In "self" (dict_keys (@nil (string * option string))) /\
   nth_error (objects Demo.ready) 0 = Some Demo.bound_method /\
   _di_container Demo.ready = Some 7%nat) /\
  exists evs,
    trace (snd (__call__ 0%nat [Some "1"] [] Demo.ready)) =
    (trace Demo.ready ++ evs)%list /\
    analyzed evs =
    [(_func Demo.bound_method,
      Z.of_nat (List.length [Some "1"]) +
      (if is_not_none (_self Demo.bound_method) then 1 else 0),
      dict_keys (@nil (string * option string)))] /\
    (forall func args' kw,
        In (func, args', kw) (delegated evs) ->
        func = _func Demo.bound_method /\
        args' = match _self Demo.bound_method with
                | Some receiver => Some receiver :: [Some "1"]
                | None => [Some "1"]
                end) /\
    (forall inj vs st1,
        injectables_of Demo.bound_method [Some "1"] [] = inr inj ->
        Resolved 7%nat (external Demo.ready) (map snd inj) vs st1 ->
        exists kw,
          delegated evs =
          [(_func Demo.bound_method,
            delegate_args Demo.bound_method [Some "1"], kw)] /\
          fst (__call__ 0%nat [Some "1"] [] Demo.ready) =
          match fst (apply (_func Demo.bound_method)
                           (delegate_args Demo.bound_method [Some "1"])
                           kw st1) with
          | inl e => Raised e
          | inr v => Returned v
          end /\
          external (snd (__call__ 0%nat [Some "1"] [] Demo.ready)) =
          snd (apply (_func Demo.bound_method)
                     (delegate_args Demo.bound_method [Some "1"]) kw st1)).
Proof.
  split; [split; [exact no_keywords_bind | split; reflexivity] |].
  exact (call_counts_receiver 0%nat [Some "1"] [] Demo.ready Demo.bound_method
                              7%nat no_keywords_bind eq_refl eq_refl).
Defined.

(** Descriptor access on the plain handler's wrapper. *)
Lemma get_binds_instance_witness :
  (di_disabled = false /\
   nth_error (objects Demo.ready) 1 = Some Demo.plain_handler) /\
  (exists r w',
      __get__ 1%nat (Some "inst") None Demo.ready =
      (Returned (Wrapper r), w') /\
      nth_error (objects Demo.ready) r = None /\
      r <> 1%nat /\
      nth_error (objects w') r =
      Some {| _func := _func Demo.plain_handler; _self := Some "inst" |} /\
      nth_error (objects w') 1 = Some Demo.plain_handler) /\
  __get__ 1%nat None None Demo.ready = (Returned (Wrapper 1%nat), Demo.ready).
Proof.
  split; [split; reflexivity |].
  exact (get_binds_instance 1%nat "inst" None Demo.ready Demo.plain_handler
                            eq_refl eq_refl).
Defined.

(** The bound method: its two dependencies resolve or the call is off. *)
Lemma call_all_or_nothing_witness :
  (~ In "self" (dict_keys (@nil (string * option string))) /\
   nth_error (objects Demo.ready) 0 = Some Demo.bound_method /\
   _di_container Demo.ready = Some 7%nat /\
   injectables_of Demo.bound_method [Some "1"] [] =
   inr [("svc", "Service"); ("db", "Database")]) /\
  exists evs,
    trace (snd (__call__ 0%nat [Some "1"] [] Demo.ready)) =
    (trace Demo.ready ++ evs)%list /\
    ((exists vs st1,
         Resolved 7%nat (external Demo.ready)
                  (map snd [("svc", "Service"); ("db", "Database")]) vs st1 /\
         let kw := dict_update
                     (dict_update dict_empty [])
                     (combine
                        (dict_keys [("svc", "Service"); ("db", "Database")])
                        vs) in
         let r := apply (_func Demo.bound_method)
                        (delegate_args Demo.bound_method [Some "1"]) kw st1 in
         requested evs = map snd [("svc", "Service"); ("db", "Database")] /\
         delegated evs =
         [(_func Demo.bound_method,
           delegate_args Demo.bound_method [Some "1"], kw)] /\
         fst (__call__ 0%nat [Some "1"] [] Demo.ready) =
         match fst r with
         | inl e => Raised e
         | inr v => Returned v
         end /\
         external (snd (__call__ 0%nat [Some "1"] [] Demo.ready)) = snd r)
     \/
     (exists vs asked e st1,
         FirstFailure 7%nat (external Demo.ready)
                      (map snd [("svc", "Service"); ("db", "Database")])
                      vs asked e st1 /\
         requested evs = asked /\
         asked = firstn (S (List.length vs))
                        (map snd [("svc", "Service"); ("db", "Database")]) /\
         delegated evs = [] /\
         fst (__call__ 0%nat [Some "1"] [] Demo.ready) = Raised e /\
         external (snd (__call__ 0%nat [Some "1"] [] Demo.ready)) = st1)).
Proof.
  split; [split; [exact no_keywords_bind | repeat split] |].
  exact (call_all_or_nothing 0%nat [Some "1"] [] Demo.ready Demo.bound_method
                             7%nat [("svc", "Service"); ("db", "Database")]
                             no_keywords_bind eq_refl eq_refl eq_refl).
Defined.

(** The bound method again: [Service] is requested before [Database]. *)
Lemma resolution_order_witness :
  (~ In "self" (dict_keys (@nil (string * option string))) /\
   nth_error (objects Demo.ready) 0 = Some Demo.bound_method /\
   _di_container Demo.ready = Some 7%nat /\
   inspect_signature (_func Demo.bound_method) = inr Demo.method_parameters /\
   NoDup (map (@name _ _) Demo.method_parameters)) /\
  let chosen :=
      eligible_parameters Demo.method_parameters
                          (positional_count Demo.bound_method [Some "1"])
                          (dict_keys (@nil (string * option string))) in
  map Some (annotations chosen) = map (@annotation _ _) chosen /\
  exists evs,
    trace (snd (__call__ 0%nat [Some "1"] [] Demo.ready)) =
    (trace Demo.ready ++ evs)%list /\
    ((exists vs st1,
         Resolved 7%nat (external Demo.ready) (annotations chosen) vs st1 /\
         requested evs = annotations chosen /\
         exists kw,
           delegated evs =
           [(_func Demo.bound_method,
             delegate_args Demo.bound_method [Some "1"], kw)] /\
           forall j p v,
             nth_error chosen j = Some p -> nth_error vs j = Some v ->
             dict_get kw (name p) = Some v)
     \/
     (exists vs asked e st1,
         FirstFailure 7%nat (external Demo.ready) (annotations chosen)
                      vs asked e st1 /\
         requested evs = asked /\
         asked = firstn (S (List.length vs)) (annotations chosen))).
Proof.
  split;
    [split; [exact no_keywords_bind
            | repeat split; exact method_names_distinct] |].
  exact (resolution_order 0%nat [Some "1"] [] Demo.ready Demo.bound_method
                          7%nat Demo.method_parameters no_keywords_bind
                          eq_refl eq_refl eq_refl method_names_distinct).
Defined.

(** The wrapper of the plain handler, through calls, accesses and
    constructions. *)
Lemma wrapper_state_is_never_mutated_witness :
  nth_error (objects Demo.ready) 1 = Some Demo.plain_handler /\
  (forall self args kwargs,
      nth_error (objects (snd (__call__ self args kwargs Demo.ready))) 1 =
      Some Demo.plain_handler /\
      _di_container (snd (__call__ self args kwargs Demo.ready)) =
      _di_container Demo.ready) /\
  (forall self instance owner,
      nth_error (objects (snd (__get__ self instance owner Demo.ready))) 1 =
      Some Demo.plain_handler /\
      _di_container (snd (__get__ self instance owner Demo.ready)) =
      _di_container Demo.ready) /\
  (forall func self_,
      nth_error (objects (snd (LazyInjecting func self_ Demo.ready))) 1 =
      Some Demo.plain_handler /\
      _di_container (snd (LazyInjecting func self_ Demo.ready)) =
      _di_container Demo.ready).
Proof.
  split; [reflexivity |].
  exact (wrapper_state_is_never_mutated Demo.ready 1%nat Demo.plain_handler
                                        eq_refl).
Defined.

(** The annotated [*rest] of the variadic callable. *)
Lemma variadic_parameters_are_injected_witness :
  (inspect_signature "variadic" = inr Demo.variadic_parameters /\
   NoDup (map (@name _ _) Demo.variadic_parameters) /\
   nth_error Demo.variadic_parameters 1 = Some Demo.rest_parameter /\
   (kind Demo.rest_parameter = VAR_POSITIONAL \/
    kind Demo.rest_parameter = VAR_KEYWORD) /\
   annotation Demo.rest_parameter = Some "Extra" /\
   default Demo.rest_parameter = None) /\
  (forall (N : nat) K,
      (N <= 1)%nat -> ~ In (name Demo.rest_parameter) K ->
      exists m,
        find_injectable_kwargs "variadic" (Z.of_nat N) K = inr m /\
        dict_get m (name Demo.rest_parameter) = Some "Extra") /\
  (forall self args kwargs w o c vs st1,
      ~ In "self" (dict_keys kwargs) ->
      nth_error (objects w) self = Some o ->
      _di_container w = Some c ->
      _func o = "variadic" ->
      (positional_count o args <= 1)%nat ->
      ~ In (name Demo.rest_parameter) (dict_keys kwargs) ->
      Resolved c (external w)
               (annotations
                  (eligible_parameters Demo.variadic_parameters
                                       (positional_count o args)
                                       (dict_keys kwargs))) vs st1 ->
      exists evs kw j v,
        trace (snd (__call__ self args kwargs w)) = (trace w ++ evs)%list /\
        delegated evs = [("variadic", delegate_args o args, kw)] /\
        nth_error (annotations
                     (eligible_parameters Demo.variadic_parameters
                                          (positional_count o args)
                                          (dict_keys kwargs))) j =
        Some "Extra" /\
        nth_error vs j = Some v /\
        dict_get kw (name Demo.rest_parameter) = Some v).
Proof.
  split.
  - repeat split; try exact variadic_names_distinct. now left.
  - exact (variadic_parameters_are_injected
             "variadic" Demo.variadic_parameters 1%nat Demo.rest_parameter
             "Extra" eq_refl variadic_names_distinct eq_refl
             (or_introl eq_refl) eq_refl eq_refl).
Defined.

(** ** The further properties on the concrete host *)

Lemma injectable_entries_are_eligible_witness :
  (inspect_signature "handler" = inr Demo.handler_parameters /\
   find_injectable_kwargs "handler" 1 [] = inr [("c", "Widget")]) /\
  NoDup (dict_keys [("c", "Widget")]) /\
  forall k a,
    In (k, a) [("c", "Widget")] ->
    exists p,
      In p (slice_from Demo.handler_parameters 1) /\ name p = k /\
      annotation p = Some a /\ default p = None /\
      kind p <> POSITIONAL_ONLY /\ ~ In k [].
Proof.
  split; [split; reflexivity |].
  exact (injectable_entries_are_eligible
           "handler" Demo.handler_parameters 1 [] [("c", "Widget")]
           eq_refl eq_refl).
Defined.

Lemma injectables_in_declaration_order_witness :
  (inspect_signature "method" = inr Demo.method_parameters /\
   NoDup (map (@name _ _) Demo.method_parameters)) /\
  exists m,
    find_injectable_kwargs "method" (Z.of_nat 2) [] = inr m /\
    dict_keys m =
    map (@name _ _) (filter (eligible []) (skipn 2 Demo.method_parameters)) /\
    map (fun kv => Some (snd kv)) m =
    map (@annotation _ _)
        (filter (eligible []) (skipn 2 Demo.method_parameters)).
Proof.
  split; [split; [reflexivity | exact method_names_distinct] |].
  exact (injectables_in_declaration_order
           "method" Demo.method_parameters 2 [] eq_refl method_names_distinct).
Defined.

Lemma negative_count_slices_from_end_witness :
  (inspect_signature "method" = inr Demo.method_parameters /\ (0 < 1)%nat) /\
  find_injectable_kwargs "method" (- Z.of_nat 1) [] =
  find_injectable_kwargs
    "method" (Z.of_nat (List.length Demo.method_parameters - 1)) [].
Proof.
  split; [split; [reflexivity | lia] |].
  exact (negative_count_slices_from_end
           "method" Demo.method_parameters 1 [] eq_refl (le_n 1)).
Defined.

Lemma all_positionals_supplied_witness :
  (inspect_signature "handler" = inr Demo.handler_parameters /\
   (List.length Demo.handler_parameters <= 3)%nat) /\
  find_injectable_kwargs "handler" (Z.of_nat 3) [] = inr dict_empty.
Proof.
  split; [split; [reflexivity | simpl; lia] |].
  exact (all_positionals_supplied
           "handler" Demo.handler_parameters 3 [] eq_refl (le_n 3)).
Defined.

Lemma more_supplied_fewer_injected_witness :
  (inspect_signature "method" = inr Demo.method_parameters /\
   NoDup (map (@name _ _) Demo.method_parameters) /\
   (1 <= 2)%nat /\ incl [] ["db"]) /\
  exists m m',
    find_injectable_kwargs "method" (Z.of_nat 1) [] = inr m /\
    find_injectable_kwargs "method" (Z.of_nat 2) ["db"] = inr m' /\
    incl m' m.
Proof.
  split.
  - repeat split; [exact method_names_distinct | lia | apply incl_nil_l].
  - exact (more_supplied_fewer_injected
             "method" Demo.method_parameters 1 2 [] ["db"]
             eq_refl method_names_distinct (le_S 1 1 (le_n 1))
             (incl_nil_l ["db"])).
Defined.

Lemma injected_names_leave_nothing_witness :
  find_injectable_kwargs "method" 1 [] =
  inr [("x", "int"); ("svc", "Service"); ("db", "Database")] /\
  find_injectable_kwargs
    "method" 1
    ([] ++ dict_keys [("x", "int"); ("svc", "Service"); ("db", "Database")]) =
  inr dict_empty.
Proof.
  split; [reflexivity |].
  exact (injected_names_leave_nothing
           "method" 1 []
           [("x", "int"); ("svc", "Service"); ("db", "Database")] eq_refl).
Defined.

Lemma call_with_unreadable_signature_witness :
  (~ In "self" (dict_keys (@nil (string * option string))) /\
   nth_error (objects Demo.workshop) 3 = Some Demo.broken /\
   _di_container Demo.workshop = Some 7%nat /\
   inspect_signature (_func Demo.broken) = inl (Other "NameError")) /\
  fst (__call__ 3%nat [] [] Demo.workshop) = Raised (Other "NameError") /\
  exists evs,
    trace (snd (__call__ 3%nat [] [] Demo.workshop)) =
    (trace Demo.workshop ++ evs)%list /\
    requested evs = [] /\ delegated evs = [].
Proof.
  split; [split; [exact no_keywords_bind | repeat split] |].
  exact (call_with_unreadable_signature
           3%nat [] [] Demo.workshop Demo.broken 7%nat (Other "NameError")
           no_keywords_bind eq_refl eq_refl eq_refl).
Defined.

Lemma widget_resolved :
  Resolved 7%nat (external Demo.ready) (map snd [("c", "Widget")])
           [Some "<Widget>"] ["aget Widget"].
Proof. econstructor; [reflexivity | constructor]. Defined.

Lemma delegated_kwargs_are_merged_witness :
  (~ In "self" (dict_keys [("b", Some "y")]) /\
   nth_error (objects Demo.ready) 1 = Some Demo.plain_handler /\
   _di_container Demo.ready = Some 7%nat /\
   NoDup (dict_keys [("b", Some "y")]) /\
   injectables_of Demo.plain_handler [Some "1"] [("b", Some "y")] =
   inr [("c", "Widget")] /\
   Resolved 7%nat (external Demo.ready) (map snd [("c", "Widget")])
            [Some "<Widget>"] ["aget Widget"]) /\
  exists evs,
    trace (snd (__call__ 1%nat [Some "1"] [("b", Some "y")] Demo.ready)) =
    (trace Demo.ready ++ evs)%list /\
    delegated evs =
    [(_func Demo.plain_handler,
      delegate_args Demo.plain_handler [Some "1"],
      ([("b", Some "y")] ++
       combine (dict_keys [("c", "Widget")]) [Some "<Widget>"])%list)] /\
    forall k,
      In k (dict_keys [("b", Some "y")]) ->
      dict_get ([("b", Some "y")] ++
                combine (dict_keys [("c", "Widget")]) [Some "<Widget>"])%list
               k =
      dict_get [("b", Some "y")] k.
Proof.
  assert (Hnd : NoDup (dict_keys [("b", Some "y")]))
    by (constructor; [intros [] | constructor]).
  split.
  - split; [exact keyword_b_binds |].
    repeat split; [exact Hnd | exact widget_resolved].
  - exact (delegated_kwargs_are_merged
             1%nat [Some "1"] [("b", Some "y")] Demo.ready Demo.plain_handler
             7%nat [("c", "Widget")] [Some "<Widget>"] ["aget Widget"]
             keyword_b_binds eq_refl eq_refl Hnd eq_refl widget_resolved).
Defined.

Lemma call_with_nothing_to_inject_witness :
  (~ In "self" (dict_keys [("c", Some "mine")]) /\
   nth_error (objects Demo.ready) 1 = Some Demo.plain_handler /\
   _di_container Demo.ready = Some 7%nat /\
   NoDup (dict_keys [("c", Some "mine")]) /\
   injectables_of Demo.plain_handler [Some "1"] [("c", Some "mine")] =
   inr dict_empty) /\
  __call__ 1%nat [Some "1"] [("c", Some "mine")] Demo.ready =
  (match fst (apply (_func Demo.plain_handler)
                    (delegate_args Demo.plain_handler [Some "1"])
                    [("c", Some "mine")] (external Demo.ready)) with
   | inl e => Raised e
   | inr v => Returned v
   end,
   after Demo.ready
         (snd (apply (_func Demo.plain_handler)
                     (delegate_args Demo.plain_handler [Some "1"])
                     [("c", Some "mine")] (external Demo.ready)))
         [analysis_of Demo.plain_handler [Some "1"] [("c", Some "mine")];
          EvCall (_func Demo.plain_handler)
                 (delegate_args Demo.plain_handler [Some "1"])
                 [("c", Some "mine")]]).
Proof.
  assert (Hnd : NoDup (dict_keys [("c", Some "mine")]))
    by (constructor; [intros [] | constructor]).
  split.
  - split; [exact keyword_c_binds |]. repeat split. exact Hnd.
  - exact (call_with_nothing_to_inject
             1%nat [Some "1"] [("c", Some "mine")] Demo.ready
             Demo.plain_handler 7%nat keyword_c_binds eq_refl eq_refl Hnd
             eq_refl).
Defined.

Lemma get_then_call_witness :
  (di_disabled = false /\
   ~ In "self" (dict_keys (@nil (string * option string))) /\
   nth_error (objects Demo.workshop) 4 = Some Demo.unbound_method /\
   _di_container Demo.workshop = Some 7%nat) /\
  exists r w',
    __get__ 4%nat (Some "me") None Demo.workshop =
    (Returned (Wrapper r), w') /\
    exists evs,
      trace (snd (__call__ r [Some "1"] [] w')) =
      (trace Demo.workshop ++ evs)%list /\
      analyzed evs =
      [(_func Demo.unbound_method,
        Z.of_nat (List.length [Some "1"]) + 1,
        dict_keys (@nil (string * option string)))] /\
      (forall func args' kw,
          In (func, args', kw) (delegated evs) ->
          func = _func Demo.unbound_method /\
          args' = [Some "me"; Some "1"]) /\
      (forall inj vs st1,
          find_injectable_kwargs (_func Demo.unbound_method)
                                 (Z.of_nat (List.length [Some "1"]) + 1)
                                 (dict_keys (@nil (string * option string))) =
          inr inj ->
          Resolved 7%nat (external Demo.workshop) (map snd inj) vs st1 ->
          exists kw,
            delegated evs =
            [(_func Demo.unbound_method, [Some "me"; Some "1"], kw)] /\
            fst (__call__ r [Some "1"] [] w') =
            match fst (apply (_func Demo.unbound_method)
                             [Some "me"; Some "1"] kw st1) with
            | inl e => Raised e
            | inr v => Returned v
            end /\
            external (snd (__call__ r [Some "1"] [] w')) =
            snd (apply (_func Demo.unbound_method)
                       [Some "me"; Some "1"] kw st1)).
Proof.
  split; [split; [reflexivity | split; [exact no_keywords_bind |]] |].
  - split; reflexivity.
  - exact (get_then_call 4%nat "me" None [Some "1"] [] Demo.workshop
                         Demo.unbound_method 7%nat eq_refl no_keywords_bind
                         eq_refl eq_refl).
Defined.

Lemma get_is_not_memoised_witness :
  (di_disabled = false /\
   nth_error (objects Demo.workshop) 4 = Some Demo.unbound_method) /\
  exists r1 w1 r2 w2,
    __get__ 4%nat (Some "me") None Demo.workshop =
    (Returned (Wrapper r1), w1) /\
    __get__ 4%nat (Some "me") None w1 = (Returned (Wrapper r2), w2) /\
    r1 <> r2 /\
    nth_error (objects w2) r1 =
    Some {| _func := _func Demo.unbound_method; _self := Some "me" |} /\
    nth_error (objects w2) r2 =
    Some {| _func := _func Demo.unbound_method; _self := Some "me" |}.
Proof.
  split; [split; reflexivity |].
  exact (get_is_not_memoised 4%nat "me" None Demo.workshop
                             Demo.unbound_method eq_refl eq_refl).
Defined.

Lemma construct_then_call_witness :
  (di_disabled = false /\
   ~ In "self" (dict_keys (@nil (string * option string))) /\
   _di_container Demo.ready = Some 7%nat) /\
  exists r w',
    LazyInjecting "method" (Some "me") Demo.ready =
    (Returned (Wrapper r), w') /\
    nth_error (objects Demo.ready) r = None /\
    exists evs,
      trace (snd (__call__ r [Some "1"] [] w')) =
      (trace Demo.ready ++ evs)%list /\
      analyzed evs =
      [("method",
        Z.of_nat (List.length [Some "1"]) +
        (if is_not_none (Some "me") then 1 else 0),
        dict_keys (@nil (string * option string)))] /\
      (forall func' args' kw,
          In (func', args', kw) (delegated evs) ->
          func' = "method" /\
          args' = match Some "me" with
                  | Some receiver => Some receiver :: [Some "1"]
                  | None => [Some "1"]
                  end) /\
      (forall inj vs st1,
          find_injectable_kwargs
            "method"
            (Z.of_nat (List.length [Some "1"]) +
             (if is_not_none (Some "me") then 1 else 0))
            (dict_keys (@nil (string * option string))) = inr inj ->
          Resolved 7%nat (external Demo.ready) (map snd inj) vs st1 ->
          exists kw,
            delegated evs =
            [("method",
              match Some "me" with
              | Some receiver => Some receiver :: [Some "1"]
              | None => [Some "1"]
              end, kw)] /\
            fst (__call__ r [Some "1"] [] w') =
            match fst (apply "method"
                             match Some "me" with
                             | Some receiver => Some receiver :: [Some "1"]
                             | None => [Some "1"]
                             end kw st1) with
            | inl e => Raised e
            | inr v => Returned v
            end /\
            external (snd (__call__ r [Some "1"] [] w')) =
            snd (apply "method"
                       match Some "me" with
                       | Some receiver => Some receiver :: [Some "1"]
                       | None => [Some "1"]
                       end kw st1)).
Proof.
  split; [split; [reflexivity | split; [exact no_keywords_bind |]] |].
  - reflexivity.
  - exact (construct_then_call "method" (Some "me") [Some "1"] [] Demo.ready
                               7%nat eq_refl no_keywords_bind eq_refl).
Defined.

Lemma bound_call_is_receiver_first_witness :
  (nth_error (objects Demo.workshop) 0 = Some Demo.bound_method /\
   nth_error (objects Demo.workshop) 4 = Some Demo.unbound_method /\
   _self Demo.bound_method = Some "me" /\
   _self Demo.unbound_method = None /\
   _func Demo.unbound_method = _func Demo.bound_method) /\
  __call__ 0%nat [Some "1"] [] Demo.workshop =
  __call__ 4%nat [Some "me"; Some "1"] [] Demo.workshop.
Proof.
  split; [repeat split |].
  exact (bound_call_is_receiver_first
           0%nat 4%nat [Some "1"] [] Demo.workshop Demo.bound_method
           Demo.unbound_method "me" eq_refl eq_refl eq_refl eq_refl eq_refl).
Defined.
